(** * ssmem: an object allocator with epoch-based reclamation

    A shallow embedding of [third/SOFT/ssmem.cpp] and the properties of
    its reclamation engine, its free-set recycling and its bump arena.

    Conventions of the embedding.
    - Machine integers are [Z]; [size_t] arithmetic is wrapped with
      [wrap64], the [int] conversions of the source with [to_int].
    - A heap buffer ([ts_set], the pointer array [set] of a free set) is a
      list of words; a word never written since its allocation is [None].
      Reading such a word, or reading or writing outside the buffer, is
      [Undefined].
    - A singly linked list ([set_next], [next]) is the list of its nodes,
      newest first, as the source links them.
    - What the memory backend answers (the address of a new chunk, of a
      timestamp slot) is an argument of the operation that asks for it; the
      backend tier flag [isPM] only selects which backend is asked and is
      not carried.  Pointers handed to the backend's [free] are logged. *)

From Stdlib Require Import ZArith Lia List Bool.
From stdpp Require Import base list.
Import ListNotations.

Local Open Scope Z_scope.

(** ** Outcomes *)

Inductive res (A : Type) : Type :=
| Ok (a : A)
| Undefined   (* out-of-bounds or uninitialised access, null dereference *)
| Abort       (* a failed [assert] *)
| Timeout.    (* the loop fuel of the model ran out *)

Arguments Ok {A} a.
Arguments Undefined {A}.
Arguments Abort {A}.
Arguments Timeout {A}.

Definition rbind {A B} (m : res A) (k : A -> res B) : res B :=
  match m with
  | Ok a => k a
  | Undefined => Undefined
  | Abort => Abort
  | Timeout => Timeout
  end.

#[global] Instance res_ret : MRet res := @Ok.
#[global] Instance res_bind : MBind res := fun A B k m => rbind m k.

(** ** Machine integers *)

Definition wrap64 (z : Z) : Z := z mod 2 ^ 64.

(** Conversion of a [size_t] to [int] (two's complement, 32 bits). *)
Definition to_int (z : Z) : Z := (z + 2 ^ 31) mod 2 ^ 32 - 2 ^ 31.

(** ** Heap buffers *)

Abbreviation buffer := (list (option Z)).

Definition malloc_words (n : Z) : buffer := replicate (Z.to_nat n) None.

Definition load (b : buffer) (i : Z) : res Z :=
  if i <? 0 then Undefined
  else match b !! Z.to_nat i with
       | Some (Some v) => Ok v
       | _ => Undefined
       end.

Definition store (b : buffer) (i : Z) (v : Z) : res buffer :=
  if i <? 0 then Undefined
  else if (Z.to_nat i <? length b)%nat then Ok (<[Z.to_nat i := Some v]> b)
  else Undefined.

(** ** The timestamp registry *)

(** A node of [ssmem_ts_list]; [ts_addr] is the address of the node, which
    is what [ssmem_ts_local] and [a->ts] hold. *)
Record ssmem_ts := {
  ts_addr : Z;
  id : Z;
  version : Z
}.

(** The process-wide and thread-local variables of the file, seen from the
    thread that owns the allocator, and the log of the backend's [free]. *)
Record world := {
  ssmem_ts_list : list ssmem_ts;
  ssmem_ts_list_len : Z;
  ssmem_ts_local : option Z;
  backend_freed : list Z
}.

Definition set_ts_list (w : world) (l : list ssmem_ts) (n : Z) : world :=
  {| ssmem_ts_list := l; ssmem_ts_list_len := n;
     ssmem_ts_local := ssmem_ts_local w; backend_freed := backend_freed w |}.

Definition log_free (w : world) (ps : list Z) : world :=
  {| ssmem_ts_list := ssmem_ts_list w; ssmem_ts_list_len := ssmem_ts_list_len w;
     ssmem_ts_local := ssmem_ts_local w; backend_freed := backend_freed w ++ ps |}.

(** [ssmem_ts_next]: [ssmem_ts_local->version++].  The node is found by its
    address; a thread-local pointer that is null or that points to no node
    of the list is not dereferenced. *)
Definition bump (me : Z) (s : ssmem_ts) : ssmem_ts :=
  if ts_addr s =? me
  then {| ts_addr := ts_addr s; id := id s; version := wrap64 (version s + 1) |}
  else s.

Definition ssmem_ts_next (w : world) : res world :=
  match ssmem_ts_local w with
  | None => Undefined
  | Some me =>
      if existsb (fun s => ts_addr s =? me) (ssmem_ts_list w)
      then Ok (set_ts_list w (map (bump me) (ssmem_ts_list w)) (ssmem_ts_list_len w))
      else Undefined
  end.

(** The walk of [ssmem_ts_set_collect]:
    [while (cur != nullptr && cur->id < ssmem_ts_list_len)]. *)
Fixpoint ts_set_collect_walk (len : Z) (cur : list ssmem_ts) (ts_set : buffer)
  : res buffer :=
  match cur with
  | [] => Ok ts_set
  | s :: next =>
      if id s <? len
      then ts_set' ← store ts_set (id s) (version s);
           ts_set_collect_walk len next ts_set'
      else Ok ts_set
  end.

(** [ssmem_ts_set_collect]: a null [ts_set] is allocated first, with
    [ssmem_ts_list_len] words that are not initialised. *)
Definition ssmem_ts_set_collect (w : world) (ts_set : option buffer) : res buffer :=
  let ts_set :=
    match ts_set with
    | None => malloc_words (ssmem_ts_list_len w)
    | Some b => b
    end in
  ts_set_collect_walk (ssmem_ts_list_len w) (ssmem_ts_list w) ts_set.

(** The loop of [ssmem_ts_compare], [n] iterations from index [i] on. *)
Fixpoint ts_compare_from (n : nat) (i : Z) (s_new s_old : buffer) : res bool :=
  match n with
  | O => Ok true
  | S n' =>
      x ← load s_new i;
      y ← load s_old i;
      if x <=? y then Ok false
      else ts_compare_from n' (i + 1) s_new s_old
  end.

(** [ssmem_ts_compare]: the result is [is_newer]. *)
Definition ssmem_ts_compare (w : world) (s_new s_old : buffer) : res bool :=
  ts_compare_from (Z.to_nat (ssmem_ts_list_len w)) 0 s_new s_old.

(** ** Configuration

    The macros of [ssmem.h] that the file reads; the header is not part of
    the sources, so they are parameters of the model. *)

Inductive ts_incr_on :=
| SSMEM_TS_INCR_ON_NONE
| SSMEM_TS_INCR_ON_BOTH
| SSMEM_TS_INCR_ON_ALLOC
| SSMEM_TS_INCR_ON_FREE.

Record config := {
  SSMEM_GC_RLSE_SET_SIZE : Z;
  SSMEM_MEM_SIZE_DOUBLE : bool;
  SSMEM_MEM_SIZE_MAX : Z;
  SSMEM_TS_INCR_ON : ts_incr_on
}.


(** ** Free sets, released records, allocators *)

(** [ssmem_free_set_t]; [set_next] is the tail of the list holding it. *)
Record ssmem_free_set := {
  ts_set : option buffer;
  size : Z;
  curr : Z;
  set : buffer
}.

(** [ssmem_released_t] (fields [mem] and [ts_set]). *)
Record ssmem_released := {
  rel_mem : Z;
  rel_ts_set : buffer
}.

(** [ssmem_allocator_t]; [mem_chunks] lists the chunk addresses. *)
Record ssmem_allocator := {
  mem : Z;
  mem_curr : Z;
  mem_size : Z;
  tot_size : Z;
  fs_size : Z;
  mem_chunks : list Z;
  ts : Z;
  free_set_list : list ssmem_free_set;
  free_set_num : Z;
  collected_set_list : list ssmem_free_set;
  collected_set_num : Z;
  available_set_list : list ssmem_free_set;
  released_num : Z;
  released_mem_list : list ssmem_released
}.

Definition fs_with_curr (fs : ssmem_free_set) (c : Z) : ssmem_free_set :=
  {| ts_set := ts_set fs; size := size fs; curr := c; set := set fs |}.

Definition fs_with_ts_set (fs : ssmem_free_set) (t : option buffer) : ssmem_free_set :=
  {| ts_set := t; size := size fs; curr := curr fs; set := set fs |}.

Definition fs_with_set (fs : ssmem_free_set) (b : buffer) : ssmem_free_set :=
  {| ts_set := ts_set fs; size := size fs; curr := curr fs; set := b |}.

Definition with_arena (a : ssmem_allocator) (m c s t : Z) (chunks : list Z)
  : ssmem_allocator :=
  {| mem := m; mem_curr := c; mem_size := s; tot_size := t;
     fs_size := fs_size a; mem_chunks := chunks; ts := ts a;
     free_set_list := free_set_list a; free_set_num := free_set_num a;
     collected_set_list := collected_set_list a;
     collected_set_num := collected_set_num a;
     available_set_list := available_set_list a;
     released_num := released_num a;
     released_mem_list := released_mem_list a |}.

Definition with_free_sets (a : ssmem_allocator) (l : list ssmem_free_set) (n : Z)
  : ssmem_allocator :=
  {| mem := mem a; mem_curr := mem_curr a; mem_size := mem_size a;
     tot_size := tot_size a; fs_size := fs_size a; mem_chunks := mem_chunks a;
     ts := ts a;
     free_set_list := l; free_set_num := n;
     collected_set_list := collected_set_list a;
     collected_set_num := collected_set_num a;
     available_set_list := available_set_list a;
     released_num := released_num a;
     released_mem_list := released_mem_list a |}.

Definition with_collected_sets (a : ssmem_allocator) (l : list ssmem_free_set) (n : Z)
  : ssmem_allocator :=
  {| mem := mem a; mem_curr := mem_curr a; mem_size := mem_size a;
     tot_size := tot_size a; fs_size := fs_size a; mem_chunks := mem_chunks a;
     ts := ts a;
     free_set_list := free_set_list a; free_set_num := free_set_num a;
     collected_set_list := l; collected_set_num := n;
     available_set_list := available_set_list a;
     released_num := released_num a;
     released_mem_list := released_mem_list a |}.

Definition with_available_sets (a : ssmem_allocator) (l : list ssmem_free_set)
  : ssmem_allocator :=
  {| mem := mem a; mem_curr := mem_curr a; mem_size := mem_size a;
     tot_size := tot_size a; fs_size := fs_size a; mem_chunks := mem_chunks a;
     ts := ts a;
     free_set_list := free_set_list a; free_set_num := free_set_num a;
     collected_set_list := collected_set_list a;
     collected_set_num := collected_set_num a;
     available_set_list := l;
     released_num := released_num a;
     released_mem_list := released_mem_list a |}.

Definition with_released (a : ssmem_allocator) (l : list ssmem_released) (n : Z)
  : ssmem_allocator :=
  {| mem := mem a; mem_curr := mem_curr a; mem_size := mem_size a;
     tot_size := tot_size a; fs_size := fs_size a; mem_chunks := mem_chunks a;
     ts := ts a;
     free_set_list := free_set_list a; free_set_num := free_set_num a;
     collected_set_list := collected_set_list a;
     collected_set_num := collected_set_num a;
     available_set_list := available_set_list a;
     released_num := n;
     released_mem_list := l |}.

(** ** Initialisation *)

(** [ssmem_gc_thread_init]; [slot] is the address the backend gives to the
    timestamp node if one is allocated.  The result is the new world and
    [a->ts]. *)
Definition ssmem_gc_thread_init (slot : Z) (w : world) (id : Z) : world * Z :=
  match ssmem_ts_local w with
  | Some p => (w, p)
  | None =>
      let node := {| ts_addr := slot; id := wrap64 id; version := 0 |} in
      ({| ssmem_ts_list := node :: ssmem_ts_list w;
          ssmem_ts_list_len := (ssmem_ts_list_len w + 1) mod 2 ^ 32;
          ssmem_ts_local := Some slot;
          backend_freed := backend_freed w |}, slot)
  end.

(** [sizeof(ssmem_free_set_t)]: the type is declared in [ssmem.h], which is
    not part of the sources; five fields of 8 bytes, aligned to the cache
    line. *)
Definition sizeof_free_set : Z := 64.

(** The bytes that [ssmem_free_set_new] asks from the backend,
    [sizeof(ssmem_free_set_t) + (size * sizeof(uintptr_t))] in [size_t]
    arithmetic. *)
Definition free_set_bytes (size : Z) : Z :=
  wrap64 (sizeof_free_set + wrap64 (size * 8)).

(** The words of the block that follow the header: the pointer array
    [fs->set] starts at [fs + sizeof(ssmem_free_set_t)].  They are [size]
    unless the byte count has wrapped; a byte count that has wrapped below
    the size of the header leaves no word to the array (such a block does
    not hold the header either). *)
Definition array_words (size : Z) : Z :=
  if free_set_bytes size <? sizeof_free_set then 0
  else (free_set_bytes size - sizeof_free_set) / 8.

(** [ssmem_free_set_new]; the pointer array is not initialised. *)
Definition ssmem_free_set_new (size : Z) : ssmem_free_set :=
  {| ts_set := None; (* will get a ts when it becomes full *)
     size := size;
     curr := 0;
     set := malloc_words (array_words size) |}.

(** [ssmem_alloc_init_fs_size]; [chunk] is the address of the first chunk. *)
Definition ssmem_alloc_init_fs_size (chunk slot : Z) (w : world)
    (size free_set_size id : Z) : world * ssmem_allocator :=
  let '(w', p) := ssmem_gc_thread_init slot w id in
  (w', {| mem := chunk; mem_curr := 0; mem_size := size; tot_size := size;
          fs_size := free_set_size; mem_chunks := [chunk]; ts := p;
          free_set_list := [ssmem_free_set_new free_set_size];
          free_set_num := 1;
          collected_set_list := []; collected_set_num := 0;
          available_set_list := [];
          released_num := 0; released_mem_list := [] |}).

(** ** Recycling of free-set containers *)

(** [ssmem_free_set_get_avail]; the caller links the result in front of
    [next]. *)
Definition ssmem_free_set_get_avail (a : ssmem_allocator) (size : Z)
  : ssmem_allocator * ssmem_free_set :=
  match available_set_list a with
  | fs :: rest => (with_available_sets a rest, fs_with_curr fs 0)
  | [] => (a, ssmem_free_set_new size)
  end.

(** [ssmem_free_set_make_avail]. *)
Definition ssmem_free_set_make_avail (a : ssmem_allocator) (set : ssmem_free_set)
  : ssmem_allocator :=
  with_available_sets a (fs_with_curr set 0 :: available_set_list a).

(** ** Allocation *)

Definition incr_on_alloc (cfg : config) : bool :=
  match SSMEM_TS_INCR_ON cfg with
  | SSMEM_TS_INCR_ON_ALLOC | SSMEM_TS_INCR_ON_BOTH => true
  | _ => false
  end.

Definition incr_on_free (cfg : config) : bool :=
  match SSMEM_TS_INCR_ON cfg with
  | SSMEM_TS_INCR_ON_FREE | SSMEM_TS_INCR_ON_BOTH => true
  | _ => false
  end.

(** The closing [ssmem_ts_next] of [ssmem_alloc] and of [ssmem_free], under
    [#if SSMEM_TS_INCR_ON == ...]. *)
Definition ts_next_on_alloc (cfg : config) (w : world) : res world :=
  if incr_on_alloc cfg then ssmem_ts_next w else Ok w.

Definition ts_next_on_free (cfg : config) (w : world) : res world :=
  if incr_on_free cfg then ssmem_ts_next w else Ok w.

(** [while (a->mem_size < size)] of [ssmem_alloc]; the [assert] aborts. *)
Fixpoint grow_loop (cfg : config) (fuel : nat) (mem_size size : Z) : res Z :=
  match fuel with
  | O => Timeout
  | S fuel' =>
      if mem_size <? size
      then if mem_size >? SSMEM_MEM_SIZE_MAX cfg then Abort
           else grow_loop cfg fuel' (wrap64 (Z.shiftl mem_size 1)) size
      else Ok mem_size
  end.

(** After 64 doublings a 64-bit size is 0 and stays 0. *)
Definition grow_fuel : nat := 66.

(** The body of [if ((a->mem_curr + size) >= a->mem_size)]: a new chunk at
    address [chunk]. *)
Definition new_chunk (cfg : config) (chunk : Z) (a : ssmem_allocator) (size : Z)
  : res ssmem_allocator :=
  let mem_size1 :=
    if SSMEM_MEM_SIZE_DOUBLE cfg
    then let s := wrap64 (Z.shiftl (mem_size a) 1) in
         if s >? SSMEM_MEM_SIZE_MAX cfg then SSMEM_MEM_SIZE_MAX cfg else s
    else mem_size a in
  mem_size2 ← (if size >? mem_size1
               then grow_loop cfg grow_fuel mem_size1 size
               else Ok mem_size1);
  Ok (with_arena a chunk 0 mem_size2 (wrap64 (tot_size a + mem_size2))
        (chunk :: mem_chunks a)).

(** [a->mem_size] after the block under [#if SSMEM_MEM_SIZE_DOUBLE == 1] of
    [ssmem_alloc], as [new_chunk] computes it before its test
    [size > a->mem_size]. *)
Definition mem_size_doubled (cfg : config) (a : ssmem_allocator) : Z :=
  if SSMEM_MEM_SIZE_DOUBLE cfg
  then let s := wrap64 (Z.shiftl (mem_size a) 1) in
       if s >? SSMEM_MEM_SIZE_MAX cfg then SSMEM_MEM_SIZE_MAX cfg else s
  else mem_size a.

(** [ssmem_alloc] on an initialised allocator (from [void *m = nullptr] on);
    [chunk] is the address of the new chunk if one is asked for.  The
    result is the new world, the allocator and the pointer [m]. *)
Definition ssmem_alloc (cfg : config) (chunk : Z) (w : world)
    (a : ssmem_allocator) (size : Z) : res (world * ssmem_allocator * Z) :=
  '(a', m) ←
    match collected_set_list a with
    | cs :: cs_next =>
        (* 1st try to use from the collected memory *)
        let c := curr cs - 1 in
        m ← load (set cs) c;
        let cs := fs_with_curr cs c in
        if c <=? 0
        then Ok (ssmem_free_set_make_avail
                   (with_collected_sets a cs_next (wrap64 (collected_set_num a - 1)))
                   cs, m)
        else Ok (with_collected_sets a (cs :: cs_next) (collected_set_num a), m)
    | [] =>
        a1 ← (if wrap64 (mem_curr a + size) >=? mem_size a
              then new_chunk cfg chunk a size
              else Ok a);
        let m := wrap64 (mem a1 + mem_curr a1) in
        Ok (with_arena a1 (mem a1) (wrap64 (mem_curr a1 + size)) (mem_size a1)
              (tot_size a1) (mem_chunks a1), m)
    end;
  w' ← ts_next_on_alloc cfg w;
  Ok (w', a', m).

(** ** Reclamation *)

(** The first block of [ssmem_mem_reclaim]: the released records. *)
Definition reclaim_released (w : world) (a : ssmem_allocator)
  : res (world * ssmem_allocator) :=
  if released_num a >? 0
  then match released_mem_list a with
       | [] => Undefined
       | rel_cur :: [] => Ok (w, a)
       | rel_cur :: (rel_nxt :: _) as rest =>
           newer ← ssmem_ts_compare w (rel_ts_set rel_cur) (rel_ts_set rel_nxt);
           if newer : bool
           then Ok (log_free w (map rel_mem rest), with_released a [rel_cur] 1)
           else Ok (w, a)
       end
  else Ok (w, a).

(** The second block of [ssmem_mem_reclaim]: the free sets; the number is
    the returned [gced_num]. *)
Definition reclaim_free_sets (w : world) (a : ssmem_allocator)
  : res (ssmem_allocator * Z) :=
  match free_set_list a with
  | [] => Undefined
  | fs_cur :: suffix =>
      match ts_set fs_cur with
      | None => Ok (a, 0)
      | Some ts_cur =>
          match suffix with
          | [] => Ok (a, 0)
          | fs_nxt :: _ =>
              match ts_set fs_nxt with
              | None => Ok (a, 0) (* need at least 2 sets to compare *)
              | Some ts_nxt =>
                  newer ← ssmem_ts_compare w ts_cur ts_nxt;
                  if newer : bool
                  then let gced_num := to_int (wrap64 (free_set_num a - 1)) in
                       Ok (with_collected_sets (with_free_sets a [fs_cur] 1)
                             (collected_set_list a ++ suffix)
                             (wrap64 (collected_set_num a + gced_num)),
                           gced_num)
                  else Ok (a, 0)
              end
          end
      end
  end.

Definition ssmem_mem_reclaim (w : world) (a : ssmem_allocator)
  : res (world * ssmem_allocator * Z) :=
  '(w1, a1) ← reclaim_released w a;
  '(a2, gced_num) ← reclaim_free_sets w1 a1;
  Ok (w1, a2, gced_num).

(** ** Freeing *)

(** The body of [if ((uintptr_t)fs->curr == (uintptr_t)fs->size)] in
    [ssmem_free], [fs] being the head of the free-set list and [rest] its
    tail: the head is snapshotted, a reclamation pass runs and a new head,
    recycled or fresh, is linked in front. *)
Definition snapshot_and_reclaim (w : world) (a : ssmem_allocator)
    (fs : ssmem_free_set) (rest : list ssmem_free_set)
  : res (world * ssmem_allocator) :=
  ts' ← ssmem_ts_set_collect w (ts_set fs);
  let a1 := with_free_sets a (fs_with_ts_set fs (Some ts') :: rest)
              (free_set_num a) in
  '(w1, a2, _) ← ssmem_mem_reclaim w a1;
  let '(a3, fs_new) := ssmem_free_set_get_avail a2 (fs_size a2) in
  Ok (w1, with_free_sets a3 (fs_new :: free_set_list a2)
            (wrap64 (free_set_num a3 + 1))).

(** [ssmem_free] up to the store: the head free set that will receive the
    pointer is the head of the resulting [free_set_list]. *)
Definition free_prepare (w : world) (a : ssmem_allocator)
  : res (world * ssmem_allocator) :=
  match free_set_list a with
  | [] => Undefined
  | fs :: rest =>
      if wrap64 (curr fs) =? wrap64 (size fs)
      then snapshot_and_reclaim w a fs rest
      else Ok (w, a)
  end.

(** [fs->set[fs->curr++] = (uintptr_t)obj] on the head free set. *)
Definition free_store (a : ssmem_allocator) (obj : Z) : res ssmem_allocator :=
  match free_set_list a with
  | [] => Undefined
  | fs :: rest =>
      set' ← store (set fs) (curr fs) obj;
      Ok (with_free_sets a (fs_with_curr (fs_with_set fs set') (curr fs + 1) :: rest)
            (free_set_num a))
  end.

Definition ssmem_free (cfg : config) (w : world) (a : ssmem_allocator) (obj : Z)
  : res (world * ssmem_allocator) :=
  '(w1, a1) ← free_prepare w a;
  a2 ← free_store a1 obj;
  w2 ← ts_next_on_free cfg w1;
  Ok (w2, a2).

(** ** Releasing *)

(** [ssmem_released_node_new]: the snapshot buffer follows the node and is
    not initialised. *)
Definition ssmem_released_node_new (w : world) (mem : Z) : ssmem_released :=
  {| rel_mem := mem; rel_ts_set := malloc_words (ssmem_ts_list_len w) |}.

Definition ssmem_release (cfg : config) (w : world) (a : ssmem_allocator) (obj : Z)
  : res (world * ssmem_allocator) :=
  let rel := ssmem_released_node_new w obj in
  ts' ← ssmem_ts_set_collect w (Some (rel_ts_set rel));
  let rel := {| rel_mem := rel_mem rel; rel_ts_set := ts' |} in
  let n := wrap64 (released_num a + 1) in
  let rn := to_int n in
  let a1 := with_released a (rel :: released_mem_list a) n in
  if rn >=? SSMEM_GC_RLSE_SET_SIZE cfg
  then '(w1, a2, _) ← ssmem_mem_reclaim w a1; Ok (w1, a2)
  else Ok (w, a1).

(** ** Reading snapshots *)

(** [entry b t v]: word [t] of buffer [b] has been written and holds [v]. *)
Definition entry (b : buffer) (t v : Z) : Prop :=
  0 <= t /\ b !! Z.to_nat t = Some (Some v).

(** Entries [lo..hi-1] of [s_new] are strictly greater than those of [s_old]. *)
Definition newer_on (lo hi : Z) (s_new s_old : buffer) : Prop :=
  forall t, lo <= t < hi ->
    exists x y, entry s_new t x /\ entry s_old t y /\ x > y.

(** Some entry [t < len] of [s_new] is not greater than that of [s_old],
    the entries before it being greater. *)
Definition stale_at (len : Z) (s_new s_old : buffer) (t : Z) : Prop :=
  0 <= t < len /\ newer_on 0 t s_new s_old /\
  exists x y, entry s_new t x /\ entry s_old t y /\ x <= y.

(** What the specification asks of the comparison of two snapshots of
    different lengths: every entry of the newer one is compared, an entry
    missing from the older one counting as 0. *)
Definition spec_word (b : buffer) (i : nat) : Z :=
  match b !! i with
  | Some (Some v) => v
  | _ => 0
  end.

Definition spec_ts_compare (s_new s_old : buffer) : bool :=
  forallb (fun i => spec_word s_old i <? spec_word s_new i)
          (seq 0 (length s_new)).


(** ** Example registries *)

(** A registry of [len] entries whose list is not looked at. *)
Definition registry_of_len (len : Z) : world :=
  {| ssmem_ts_list := []; ssmem_ts_list_len := len;
     ssmem_ts_local := None; backend_freed := [] |}.

(** A second thread has linked its node (id 1) at the head of the list and
    has not yet incremented [ssmem_ts_list_len]; the node of the first
    thread (id 0) is at version 3. *)
Definition registry_mid_insert : world :=
  {| ssmem_ts_list := [ {| ts_addr := 128; id := 1; version := 0 |};
                        {| ts_addr := 64; id := 0; version := 3 |} ];
     ssmem_ts_list_len := 1;
     ssmem_ts_local := Some 64;
     backend_freed := [] |}.

(** ** Example allocators *)

(** A full free set of capacity 2 holding [p; q], snapshotted as [snap]. *)
Definition full_set (snap : buffer) (p q : Z) : ssmem_free_set :=
  {| ts_set := Some snap; size := 2; curr := 2; set := [Some p; Some q] |}.

(** An allocator of capacity 2 with the given free-set, collected-set and
    released lists, counted as the source counts them. *)
Definition allocator_with (free collected : list ssmem_free_set)
    (released : list ssmem_released) : ssmem_allocator :=
  {| mem := 4096; mem_curr := 256; mem_size := 4096; tot_size := 4096;
     fs_size := 2; mem_chunks := [4096]; ts := 64;
     free_set_list := free; free_set_num := Z.of_nat (length free);
     collected_set_list := collected;
     collected_set_num := Z.of_nat (length collected);
     available_set_list := [];
     released_num := Z.of_nat (length released);
     released_mem_list := released |}.

(** Three full free sets snapshotted at versions 3, 2 and 1 of the only
    thread, and one collected set. *)
Definition three_full_sets : ssmem_allocator :=
  allocator_with
    [full_set [Some 3] 4160 4176; full_set [Some 2] 4128 4144;
     full_set [Some 1] 4096 4112]
    [full_set [Some 0] 4192 4208] [].

(** The same with the two newest sets snapshotted at the same version. *)
Definition three_full_sets_idle : ssmem_allocator :=
  allocator_with
    [full_set [Some 2] 4160 4176; full_set [Some 2] 4128 4144;
     full_set [Some 1] 4096 4112]
    [full_set [Some 0] 4192 4208] [].

(** ** Snapshotted sets *)

Definition snapshotted (fs : ssmem_free_set) : bool :=
  match ts_set fs with
  | Some _ => true
  | None => false
  end.

Definition snapshotted_count (l : list ssmem_free_set) : nat :=
  length (List.filter snapshotted l).

(** ** Example configuration and single-thread registry *)

Definition example_config : config :=
  {| SSMEM_GC_RLSE_SET_SIZE := 3;
     SSMEM_MEM_SIZE_DOUBLE := false;
     SSMEM_MEM_SIZE_MAX := 4 * 1024 * 1024 * 1024;
     SSMEM_TS_INCR_ON := SSMEM_TS_INCR_ON_FREE |}.

(** One registered thread, the owner, at version [v]. *)
Definition one_thread (v : Z) : world :=
  {| ssmem_ts_list := [ {| ts_addr := 64; id := 0; version := v |} ];
     ssmem_ts_list_len := 1;
     ssmem_ts_local := Some 64;
     backend_freed := [] |}.

(** An empty head free set and two released records, snapshotted at
    versions 4 and 3. *)
Definition two_released : ssmem_allocator :=
  allocator_with [ssmem_free_set_new 2] []
    [ {| rel_mem := 9000; rel_ts_set := [Some 4] |};
      {| rel_mem := 8000; rel_ts_set := [Some 3] |} ].

(** The owning thread has a node in the registry. *)
Definition registered (w : world) : Prop :=
  match ssmem_ts_local w with
  | Some me => existsb (fun s => ts_addr s =? me) (ssmem_ts_list w) = true
  | None => False
  end.

(** An allocator whose current chunk has exactly 16 bytes left. *)
Definition sixteen_left : ssmem_allocator :=
  {| mem := 4096; mem_curr := 4080; mem_size := 4096; tot_size := 4096;
     fs_size := 2; mem_chunks := [4096]; ts := 64;
     free_set_list := [ssmem_free_set_new 2]; free_set_num := 1;
     collected_set_list := []; collected_set_num := 0;
     available_set_list := [];
     released_num := 0; released_mem_list := [] |}.

(** A world in which no thread has registered yet. *)
Definition empty_world : world :=
  {| ssmem_ts_list := []; ssmem_ts_list_len := 0;
     ssmem_ts_local := None; backend_freed := [] |}.

(** ** Runs of an allocator *)

Definition state : Type := world * ssmem_allocator.

(** One move of the owning thread, or of the other threads, which link
    their nodes into the registry and advance their versions. *)
Inductive step (cfg : config) : state -> state -> Prop :=
| step_alloc chunk w a size w' a' m :
    ssmem_alloc cfg chunk w a size = Ok (w', a', m) ->
    step cfg (w, a) (w', a')
| step_free w a obj w' a' :
    ssmem_free cfg w a obj = Ok (w', a') ->
    step cfg (w, a) (w', a')
| step_release w a obj w' a' :
    ssmem_release cfg w a obj = Ok (w', a') ->
    step cfg (w, a) (w', a')
| step_reclaim w a w' a' n :
    ssmem_mem_reclaim w a = Ok (w', a', n) ->
    step cfg (w, a) (w', a')
| step_ts_next w a w' :
    ssmem_ts_next w = Ok w' ->
    step cfg (w, a) (w', a)
| step_others w a l n :
    step cfg (w, a) (set_ts_list w l n, a).

(** The states an allocator goes through from its initialisation on; the
    capacity of the free sets is a [size_t]. *)
Inductive reachable (cfg : config) : state -> Prop :=
| reach_init chunk slot w size free_set_size id :
    0 <= free_set_size < 2 ^ 64 ->
    reachable cfg (ssmem_alloc_init_fs_size chunk slot w size free_set_size id)
| reach_step s s' :
    reachable cfg s -> step cfg s s' -> reachable cfg s'.


(** Calls of the owning thread, to write runs down. *)
Inductive call :=
| Alloc (chunk size : Z)
| Free (obj : Z)
| Release (obj : Z)
| TsNext.

Definition do_call (cfg : config) (s : state) (c : call) : res state :=
  let '(w, a) := s in
  match c with
  | Alloc chunk size =>
      '(w', a', _) ← ssmem_alloc cfg chunk w a size; Ok (w', a')
  | Free obj => ssmem_free cfg w a obj
  | Release obj => ssmem_release cfg w a obj
  | TsNext => w' ← ssmem_ts_next w; Ok (w', a)
  end.

Fixpoint run (cfg : config) (s : state) (cs : list call) : res state :=
  match cs with
  | [] => Ok s
  | c :: cs' => s' ← do_call cfg s c; run cfg s' cs'
  end.

(** ** The shape of the three lists of free sets *)

(** A container made for capacity [n]: its pointer array has the words of
    the block allocated for that capacity. *)
Definition made_for (n : Z) (fs : ssmem_free_set) : Prop :=
  size fs = n /\ length (set fs) = Z.to_nat (array_words n).

(** The byte count of a free set of capacity [n] does not wrap. *)
Definition block_fits (n : Z) : Prop :=
  sizeof_free_set + 8 * n < 2 ^ 64.

(** A free set that is full and carries a snapshot. *)
Definition full_snapshotted (fs : ssmem_free_set) : Prop :=
  curr fs = size fs /\ ts_set fs <> None.

Definition lists_ok (a : ssmem_allocator) : Prop :=
  (0 <= fs_size a < 2 ^ 64) /\
  Forall (made_for (fs_size a)) (free_set_list a) /\
  Forall (made_for (fs_size a)) (collected_set_list a) /\
  Forall (made_for (fs_size a)) (available_set_list a) /\
  exists head rest,
    free_set_list a = head :: rest /\
    (0 <= curr head <= size head) /\
    Forall full_snapshotted rest.

(** The head free set of the allocator can take one more pointer. *)
Definition head_has_room (a : ssmem_allocator) : Prop :=
  exists head rest,
    free_set_list a = head :: rest /\
    (0 <= curr head < size head) /\
    (Z.to_nat (curr head) < length (set head))%nat.


(** The head free set holds at least one pointer. *)
Definition head_nonempty (a : ssmem_allocator) : Prop :=
  exists head rest, free_set_list a = head :: rest /\ 1 <= curr head.

(** Fresh allocators of capacity 2, 1 and 0 on a thread that registers with
    them: a chunk of 4096 bytes at 4096, the timestamp node at 64. *)
Definition fresh (free_set_size : Z) : state :=
  ssmem_alloc_init_fs_size 4096 64 empty_world 4096 free_set_size 0.

(** [free_set_num] counts the free-set list (as a [size_t]). *)
Definition counted (a : ssmem_allocator) : Prop :=
  free_set_num a = wrap64 (Z.of_nat (length (free_set_list a))).

(** ** Further functions of the file *)

(** The loop of [ssmem_ts_compare_3], [n] iterations from index [i] on;
    the test is [s_1[i] <= s_2[i] || s_2[i] <= s_3[i]], the right operand
    being read only when the left one is false. *)
Fixpoint ts_compare_3_from (n : nat) (i : Z) (s_1 s_2 s_3 : buffer) : res bool :=
  match n with
  | O => Ok true
  | S n' =>
      x ← load s_1 i;
      y ← load s_2 i;
      if x <=? y then Ok false
      else
        y' ← load s_2 i;
        z ← load s_3 i;
        if y' <=? z then Ok false
        else ts_compare_3_from n' (i + 1) s_1 s_2 s_3
  end.

(** [ssmem_ts_compare_3]. *)
Definition ssmem_ts_compare_3 (w : world) (s_1 s_2 s_3 : buffer) : res bool :=
  ts_compare_3_from (Z.to_nat (ssmem_ts_list_len w)) 0 s_1 s_2 s_3.

(** [ssmem_get_id]: the id of the calling thread's node, or -1. *)
Definition ssmem_get_id (w : world) : res Z :=
  match ssmem_ts_local w with
  | None => Ok (-1)
  | Some me =>
      match List.find (fun s => ts_addr s =? me) (ssmem_ts_list w) with
      | Some s => Ok (to_int (id s))
      | None => Undefined
      end
  end.

(** ** Well-formed registries *)

(** Every node has its id below the length, no two nodes share an id, and
    every id below the length is the id of a node: the state of the
    registry between two registrations of threads with ids 0, 1, 2, ... *)
Definition ids_in_range (w : world) : Prop :=
  Forall (fun s => 0 <= id s < ssmem_ts_list_len w) (ssmem_ts_list w).

Definition ids_distinct (w : world) : Prop :=
  NoDup (List.map id (ssmem_ts_list w)).

Definition ids_dense (w : world) : Prop :=
  forall t, 0 <= t < ssmem_ts_list_len w ->
    exists s, s ∈ ssmem_ts_list w /\ id s = t.

(** Three threads with ids 0, 1 and 2, registered in that order, at the
    given versions. *)
Definition three_threads (v0 v1 v2 : Z) : world :=
  {| ssmem_ts_list := [ {| ts_addr := 192; id := 2; version := v2 |};
                        {| ts_addr := 128; id := 1; version := v1 |};
                        {| ts_addr := 64; id := 0; version := v0 |} ];
     ssmem_ts_list_len := 3;
     ssmem_ts_local := Some 64;
     backend_freed := [] |}.

(** Every thread of [w] is at a later version in [w']. *)
Definition all_advanced (w w' : world) : Prop :=
  forall s s', s ∈ ssmem_ts_list w -> s' ∈ ssmem_ts_list w' ->
    id s' = id s -> version s < version s'.

(** An allocator whose chunk of 4096 bytes is used up to byte 4000. *)
Definition nearly_full : ssmem_allocator :=
  {| mem := 4096; mem_curr := 4000; mem_size := 4096; tot_size := 4096;
     fs_size := 2; mem_chunks := [4096]; ts := 64;
     free_set_list := [ssmem_free_set_new 2]; free_set_num := 1;
     collected_set_list := []; collected_set_num := 0;
     available_set_list := [];
     released_num := 0; released_mem_list := [] |}.

(** A configuration with doubling and a cap of 512 bytes. *)
Definition doubling_config : config :=
  {| SSMEM_GC_RLSE_SET_SIZE := 3;
     SSMEM_MEM_SIZE_DOUBLE := true;
     SSMEM_MEM_SIZE_MAX := 512;
     SSMEM_TS_INCR_ON := SSMEM_TS_INCR_ON_NONE |}.

(** The number of free-set containers an allocator holds in its three
    lists. *)
Definition containers (a : ssmem_allocator) : nat :=
  (length (free_set_list a) + length (collected_set_list a)
   + length (available_set_list a))%nat.

(** The arena fields of two allocators are the same. *)
Definition same_arena (a a' : ssmem_allocator) : Prop :=
  mem a' = mem a /\ mem_curr a' = mem_curr a /\ mem_size a' = mem_size a /\
  tot_size a' = tot_size a /\ mem_chunks a' = mem_chunks a.

(** One full free set behind an empty head, and an empty container on the
    available-set list. *)
Definition with_available_container : ssmem_allocator :=
  {| mem := 4096; mem_curr := 256; mem_size := 4096; tot_size := 4096;
     fs_size := 2; mem_chunks := [4096]; ts := 64;
     free_set_list := [full_set [Some 3] 4160 4176];
     free_set_num := 1;
     collected_set_list := []; collected_set_num := 0;
     available_set_list :=
       [ {| ts_set := Some [Some 1]; size := 2; curr := 0;
            set := [Some 4096; Some 4112] |} ];
     released_num := 0; released_mem_list := [] |}.

(** The state of the fresh allocator of capacity 1 after its first free,
    of the pointer 4096. *)
Definition after_first_free : state :=
  (one_thread 1,
   with_free_sets (snd (fresh 1))
     [ {| ts_set := None; size := 1; curr := 1; set := [Some 4096] |} ] 1).


(** The words of a free set below its fill have been written. *)
Definition filled (fs : ssmem_free_set) : Prop :=
  0 <= curr fs /\ forall i, 0 <= i < curr fs -> exists p, entry (set fs) i p.

(** Every set of the free-set and collected-set lists is filled up to its
    fill, and a collected set holds at least one pointer. *)
Definition sets_filled (a : ssmem_allocator) : Prop :=
  Forall filled (free_set_list a) /\
  Forall (fun fs => filled fs /\ 1 <= curr fs) (collected_set_list a).

(** [released_num] counts the released list (as a [size_t]). *)
Definition released_counted (a : ssmem_allocator) : Prop :=
  released_num a = wrap64 (Z.of_nat (length (released_mem_list a))).

(** The run that fills two free sets of capacity 2 and frees once more:
    the first set is promoted. *)
Definition promoting_run : list call :=
  [ Free 4096; Free 4112; Free 4128; Free 4144; Free 4160 ].

(** ** Termination *)

(** The thread-local variables [ssmem_num_allocators] and
    [ssmem_allocator_list]; a node of the list is the address of an
    allocator, here with the allocator it points to. *)
Record thread_locals := {
  ssmem_num_allocators : Z;
  ssmem_allocator_list : list (Z * ssmem_allocator)
}.

(** The first two statements of [ssmem_alloc_init_fs_size], on the
    thread-local variables: the allocator at address [self] is counted and
    linked at the head of the list. *)
Definition init_thread_locals (self : Z) (a : ssmem_allocator) (tl : thread_locals)
  : thread_locals :=
  {| ssmem_num_allocators := wrap64 (ssmem_num_allocators tl + 1);
     ssmem_allocator_list := (self, a) :: ssmem_allocator_list tl |}.

(** The search of [ssmem_alloc_term] in [ssmem_allocator_list]: the first
    node that points to [self] is unlinked; a list without such a node is
    left as it is. *)
Fixpoint unlink_allocator (self : Z) (l : list (Z * ssmem_allocator))
  : list (Z * ssmem_allocator) :=
  match l with
  | [] => []
  | cur :: next =>
      if fst cur =? self then next else cur :: unlink_allocator self next
  end.

(** [ssmem_alloc_term] on the live allocator [a] at address [self].  The
    [do ... while] over the chunks dereferences the head of [mem_chunks]
    first.  The log of the backend receives the chunks, then the
    timestamp node if this was the last allocator of the thread, then the
    objects of the released records; the containers and their snapshots
    are freed too, they have no address here.  The call frees the nodes of
    the lists and leaves the fields of [a] dangling: [a] is dead
    afterwards, and a second call on it, which would read freed nodes, has
    no defined outcome and is not described by this function. *)
Definition ssmem_alloc_term (self : Z) (a : ssmem_allocator) (tl : thread_locals)
    (w : world) : res (thread_locals * world) :=
  match mem_chunks a with
  | [] => Undefined
  | chunks =>
      let w1 := log_free w chunks in
      let l := unlink_allocator self (ssmem_allocator_list tl) in
      let n := wrap64 (ssmem_num_allocators tl - 1) in
      let w2 := if n =? 0 then log_free w1 [ts a] else w1 in
      let w3 := log_free w2 (List.map rel_mem (released_mem_list a)) in
      Ok ({| ssmem_num_allocators := n; ssmem_allocator_list := l |}, w3)
  end.

(** [ssmem_term]: [while (ssmem_allocator_list != nullptr)], the head
    allocator is terminated. *)
Fixpoint ssmem_term_loop (fuel : nat) (tl : thread_locals) (w : world)
  : res (thread_locals * world) :=
  match ssmem_allocator_list tl with
  | [] => Ok (tl, w)
  | (self, a) :: _ =>
      match fuel with
      | O => Timeout
      | S fuel' =>
          '(tl', w') ← ssmem_alloc_term self a tl w;
          ssmem_term_loop fuel' tl' w'
      end
  end.

Definition ssmem_term (tl : thread_locals) (w : world) : res (thread_locals * world) :=
  ssmem_term_loop (length (ssmem_allocator_list tl)) tl w.

(** What one [ssmem_alloc_term] hands to the backend that has an address
    here, [last] telling whether the timestamp node goes too. *)
Definition freed_by_term (last : bool) (a : ssmem_allocator) : list Z :=
  mem_chunks a ++ (if last then [ts a] else [])
  ++ List.map rel_mem (released_mem_list a).

Fixpoint freed_by_terms (l : list (Z * ssmem_allocator)) : list Z :=
  match l with
  | [] => []
  | [(_, a)] => freed_by_term true a
  | (_, a) :: rest => freed_by_term false a ++ freed_by_terms rest
  end.

(** ** Zeroing a chunk *)



(** Two allocators of one thread, at addresses 1000 and 2000, the second
    initialised last. *)
Definition two_allocators : thread_locals :=
  {| ssmem_num_allocators := 2;
     ssmem_allocator_list := [ (2000, two_released); (1000, nearly_full) ] |}.

(** An allocator initialised with a chunk of 0 bytes. *)
Definition empty_arena : state :=
  ssmem_alloc_init_fs_size 4096 64 empty_world 0 2 0.
(** * Properties *)

Lemma load_entry b t v : entry b t v -> load b t = Ok v.
Proof.
  intros [Ht Hb]. unfold load.
  destruct (Z.ltb_spec t 0); [lia|]. now rewrite Hb.
Qed.

Lemma load_Ok b t v : load b t = Ok v -> entry b t v.
Proof.
  unfold load, entry. destruct (Z.ltb_spec t 0); [discriminate|].
  destruct (b !! Z.to_nat t) as [[x|]|] eqn:E; try discriminate.
  intros [= ->]. split; [lia | reflexivity].
Qed.

Lemma load_past_end b t : (length b <= Z.to_nat t)%nat -> load b t = Undefined.
Proof.
  intros H. unfold load. destruct (t <? 0); [reflexivity|].
  now rewrite (lookup_ge_None_2 b (Z.to_nat t) H).
Qed.

Lemma bind_Ok {A B} (m : res A) (k : A -> res B) (b : B) :
  m ≫= k = Ok b -> exists a, m = Ok a /\ k a = Ok b.
Proof. destruct m; simpl; try discriminate. eauto. Qed.

Lemma ts_compare_from_true n : forall i s_new s_old,
  0 <= i ->
  newer_on i (i + Z.of_nat n) s_new s_old ->
  ts_compare_from n i s_new s_old = Ok true.
Proof.
  induction n as [|n IH]; intros i s_new s_old Hi H; [reflexivity|].
  destruct (H i) as (x & y & Hx & Hy & Hxy); [lia|].
  cbn [ts_compare_from]. rewrite (load_entry _ _ _ Hx). cbn.
  rewrite (load_entry _ _ _ Hy). cbn.
  destruct (Z.leb_spec x y); [lia|].
  apply IH; [lia|]. intros t Ht. apply H. lia.
Qed.

Lemma ts_compare_from_false n : forall i s_new s_old t,
  0 <= i -> i <= t < i + Z.of_nat n ->
  newer_on i t s_new s_old ->
  (exists x y, entry s_new t x /\ entry s_old t y /\ x <= y) ->
  ts_compare_from n i s_new s_old = Ok false.
Proof.
  induction n as [|n IH]; intros i s_new s_old t Hi Ht Hlt Hbad; [lia|].
  cbn [ts_compare_from].
  destruct (Z.eq_dec i t) as [->|Hne].
  - destruct Hbad as (x & y & Hx & Hy & Hxy).
    rewrite (load_entry _ _ _ Hx). cbn. rewrite (load_entry _ _ _ Hy). cbn.
    destruct (Z.leb_spec x y); [reflexivity | lia].
  - destruct (Hlt i) as (x & y & Hx & Hy & Hxy); [lia|].
    rewrite (load_entry _ _ _ Hx). cbn. rewrite (load_entry _ _ _ Hy). cbn.
    destruct (Z.leb_spec x y); [lia|].
    apply (IH (i + 1) s_new s_old t); [lia | lia | | exact Hbad].
    intros t' Ht'. apply Hlt. lia.
Qed.

(** The loop reads past the end of the older snapshot when the entries it
    has all pass the test. *)
Lemma ts_compare_from_past_end n : forall i s_new s_old t,
  0 <= i -> i <= t < i + Z.of_nat n ->
  newer_on i t s_new s_old ->
  (length s_old <= Z.to_nat t)%nat ->
  (exists x, entry s_new t x) ->
  ts_compare_from n i s_new s_old = Undefined.
Proof.
  induction n as [|n IH]; intros i s_new s_old t Hi Ht Hlt Hlen Hnew; [lia|].
  cbn [ts_compare_from].
  destruct (Z.eq_dec i t) as [->|Hne].
  - destruct Hnew as (x & Hx).
    rewrite (load_entry _ _ _ Hx). cbn. now rewrite (load_past_end _ _ Hlen).
  - destruct (Hlt i) as (x & y & Hx & Hy & Hxy); [lia|].
    rewrite (load_entry _ _ _ Hx). cbn. rewrite (load_entry _ _ _ Hy). cbn.
    destruct (Z.leb_spec x y); [lia|].
    apply (IH (i + 1) s_new s_old t); [lia | lia | | exact Hlen | exact Hnew].
    intros t' Ht'. apply Hlt. lia.
Qed.

Lemma ts_compare_from_inv n : forall i s_new s_old b,
  0 <= i ->
  ts_compare_from n i s_new s_old = Ok b ->
  if b then newer_on i (i + Z.of_nat n) s_new s_old
  else exists t, i <= t < i + Z.of_nat n /\ newer_on i t s_new s_old /\
       exists x y, entry s_new t x /\ entry s_old t y /\ x <= y.
Proof.
  induction n as [|n IH]; intros i s_new s_old b Hi H.
  - cbn in H. injection H as <-. intros t Ht. lia.
  - cbn [ts_compare_from] in H.
    apply bind_Ok in H as (x & Hx & H). apply bind_Ok in H as (y & Hy & H).
    apply load_Ok in Hx, Hy.
    destruct (Z.leb_spec x y) as [Hxy|Hxy].
    + injection H as <-. exists i. split; [lia|]. split.
      * intros t Ht. lia.
      * exists x, y. auto.
    + apply IH in H; [|lia]. destruct b.
      * intros t Ht. destruct (Z.eq_dec t i) as [->|Hne].
        -- exists x, y. repeat split; try apply Hx; try apply Hy. lia.
        -- apply H. lia.
      * destruct H as (t & Ht & Hlt & Hbad). exists t. split; [lia|].
        split; [|exact Hbad].
        intros t' Ht'. destruct (Z.eq_dec t' i) as [->|Hne].
        -- exists x, y. repeat split; try apply Hx; try apply Hy. lia.
        -- apply Hlt. lia.
Qed.

Lemma ts_compare_true w s_new s_old :
  newer_on 0 (ssmem_ts_list_len w) s_new s_old ->
  ssmem_ts_compare w s_new s_old = Ok true.
Proof.
  intros H. unfold ssmem_ts_compare. apply ts_compare_from_true; [lia|].
  intros t Ht. apply H. lia.
Qed.

Lemma ts_compare_false w s_new s_old t :
  stale_at (ssmem_ts_list_len w) s_new s_old t ->
  ssmem_ts_compare w s_new s_old = Ok false.
Proof.
  intros (Ht & Hlt & Hbad). unfold ssmem_ts_compare.
  apply (ts_compare_from_false _ 0 s_new s_old t); [lia | lia | exact Hlt | exact Hbad].
Qed.

Lemma ts_compare_inv w s_new s_old b :
  ssmem_ts_compare w s_new s_old = Ok b ->
  if b then newer_on 0 (ssmem_ts_list_len w) s_new s_old
  else exists t, stale_at (ssmem_ts_list_len w) s_new s_old t.
Proof.
  unfold ssmem_ts_compare. intros H. apply ts_compare_from_inv in H; [|lia].
  destruct b.
  - intros t Ht. apply H. lia.
  - destruct H as (t & Ht & Hlt & Hbad). exists t. split; [lia|]. split; assumption.
Qed.

(** ** C3: the comparison of two snapshots *)

(** C3, as stated, fails: with a registry of length 2, a newer snapshot
    [5; 1] and an older snapshot [3] taken when the registry had one entry,
    the specification's comparison (missing entries count as 0) answers
    "newer", while [ssmem_ts_compare] reads entry 1 of the older snapshot,
    which does not exist. *)
Lemma ts_compare_shorter_old_snapshot :
  spec_ts_compare [Some 5; Some 1] [Some 3] = true /\
  ssmem_ts_compare (registry_of_len 2) [Some 5; Some 1] [Some 3] = Undefined.
Proof. split; reflexivity. Qed.

(** C3, amended: [ssmem_ts_compare] compares the first [ssmem_ts_list_len]
    entries (the registry length when the comparison runs), whatever the
    lengths the two snapshots were taken at.  It answers 1 exactly when
    each of these entries of the newer snapshot is strictly greater, and 0
    exactly when one of them is not, those before it being greater.  No
    missing entry counts as 0: when the older snapshot ends at an index the
    loop reaches, the read is out of bounds. *)
Theorem ts_compare_over_registry_length (w : world) (s_new s_old : buffer) :
  (ssmem_ts_compare w s_new s_old = Ok true <->
     newer_on 0 (ssmem_ts_list_len w) s_new s_old) /\
  (ssmem_ts_compare w s_new s_old = Ok false <->
     exists t, stale_at (ssmem_ts_list_len w) s_new s_old t) /\
  (forall t, 0 <= t < ssmem_ts_list_len w ->
     newer_on 0 t s_new s_old ->
     (length s_old <= Z.to_nat t)%nat ->
     (exists x, entry s_new t x) ->
     ssmem_ts_compare w s_new s_old = Undefined).
Proof.
  split; [|split].
  - split; [apply (ts_compare_inv w s_new s_old true) | apply ts_compare_true].
  - split; [apply (ts_compare_inv w s_new s_old false)|].
    intros [t Ht]. exact (ts_compare_false _ _ _ _ Ht).
  - intros t Ht Hlt Hlen Hx. unfold ssmem_ts_compare.
    apply (ts_compare_from_past_end _ 0 s_new s_old t); try assumption; lia.
Qed.

Ltac entries :=
  repeat match goal with
  | |- exists _, _ => eexists
  | |- _ /\ _ => split
  | |- entry _ _ _ => split; [lia | reflexivity]
  end; try lia.

Lemma ts_compare_over_registry_length_witness :
  ssmem_ts_compare (registry_of_len 2) [Some 5; Some 4] [Some 3; Some 1] = Ok true /\
  ssmem_ts_compare (registry_of_len 2) [Some 5; Some 1] [Some 3; Some 1] = Ok false /\
  ssmem_ts_compare (registry_of_len 2) [Some 5; Some 1] [Some 3] = Undefined.
Proof.
  split; [|split].
  - apply (proj1 (ts_compare_over_registry_length _ _ _)).
    intros t Ht. cbn in Ht.
    assert (t = 0 \/ t = 1) as [-> | ->] by lia.
    + exists 5, 3. entries.
    + exists 4, 1. entries.
  - apply (proj1 (proj2 (ts_compare_over_registry_length _ _ _))).
    exists 1. split; [cbn; lia|]. split.
    + intros t Ht. assert (t = 0) as -> by lia. exists 5, 3. entries.
    + exists 1, 1. entries.
  - apply (proj2 (proj2 (ts_compare_over_registry_length _ _ _)) 1).
    + cbn; lia.
    + intros t Ht. assert (t = 0) as -> by lia. exists 5, 3. entries.
    + cbn; lia.
    + exists 1. split; [lia | reflexivity].
Defined.

(** ** C4: the registry snapshot *)

(** The walk ends at the first node whose id is not below the length: the
    nodes behind it are not visited. *)
Lemma ts_set_collect_walk_stops len pre s post : forall b,
  len <= id s ->
  ts_set_collect_walk len (pre ++ s :: post) b = ts_set_collect_walk len pre b.
Proof.
  induction pre as [|p pre IH]; intros b Hs; cbn.
  - destruct (Z.ltb_spec (id s) len); [lia | reflexivity].
  - destruct (id p <? len); [|reflexivity].
    destruct (store b (id p) (version p)); cbn; auto.
Qed.

(** C4 fails on the code at [registry_mid_insert]: the node of id 0 is
    below the length 1 and holds version 3, but the walk ends at the head
    node (id 1), so that word 0 of the snapshot is never written. *)
Lemma ts_set_collect_stops_at_new_slot :
  ssmem_ts_set_collect registry_mid_insert None = Ok [None].
Proof. reflexivity. Qed.

(** ** Machine arithmetic *)

Lemma wrap64_small z : 0 <= z < 2 ^ 64 -> wrap64 z = z.
Proof. intros H. unfold wrap64. now apply Z.mod_small. Qed.

Lemma to_int_small z : - 2 ^ 31 <= z < 2 ^ 31 -> to_int z = z.
Proof. intros H. unfold to_int. rewrite Z.mod_small; lia. Qed.

(** ** The two blocks of [ssmem_mem_reclaim] *)

Lemma with_released_id a : with_released a (released_mem_list a) (released_num a) = a.
Proof. now destruct a. Qed.

(** The released block only changes the released list, its counter and
    the log of the backend. *)
Lemma reclaim_released_frame w a w1 a1 :
  reclaim_released w a = Ok (w1, a1) ->
  (exists l n, a1 = with_released a l n) /\
  ssmem_ts_list_len w1 = ssmem_ts_list_len w /\
  ssmem_ts_list w1 = ssmem_ts_list w /\
  ssmem_ts_local w1 = ssmem_ts_local w.
Proof.
  unfold reclaim_released. intros H.
  assert (Hid : exists l n, a = with_released a l n)
    by (exists (released_mem_list a), (released_num a); now rewrite with_released_id).
  destruct (released_num a >? 0); [|injection H as <- <-; auto].
  destruct (released_mem_list a) as [|rel_cur [|rel_nxt rest]]; [discriminate| |].
  - injection H as <- <-; auto.
  - apply bind_Ok in H as ([] & _ & H); injection H as <- <-; auto.
    split; [eauto | auto].
Qed.

(** The free-set block leaves the released list and its counter alone. *)
Lemma reclaim_free_sets_frame w a a' n :
  reclaim_free_sets w a = Ok (a', n) ->
  released_mem_list a' = released_mem_list a /\
  released_num a' = released_num a /\
  available_set_list a' = available_set_list a /\
  fs_size a' = fs_size a.
Proof.
  unfold reclaim_free_sets. intros H.
  destruct (free_set_list a) as [|fs_cur [|fs_nxt rest]]; [discriminate| |].
  - destruct (ts_set fs_cur); injection H as <- <-; auto.
  - destruct (ts_set fs_cur); [|injection H as <- <-; auto].
    destruct (ts_set fs_nxt); [|injection H as <- <-; auto].
    apply bind_Ok in H as ([] & _ & H); injection H as <- <-; auto.
Qed.

Lemma reclaim_free_sets_promote w a F0 F1 rest s0 s1 :
  free_set_list a = F0 :: F1 :: rest ->
  ts_set F0 = Some s0 -> ts_set F1 = Some s1 ->
  newer_on 0 (ssmem_ts_list_len w) s0 s1 ->
  reclaim_free_sets w a =
    Ok (with_collected_sets (with_free_sets a [F0] 1)
          (collected_set_list a ++ F1 :: rest)
          (wrap64 (collected_set_num a + to_int (wrap64 (free_set_num a - 1)))),
        to_int (wrap64 (free_set_num a - 1))).
Proof.
  intros Hl H0 H1 Hn. unfold reclaim_free_sets.
  rewrite Hl, H0, H1, (ts_compare_true _ _ _ Hn). reflexivity.
Qed.

Lemma reclaim_free_sets_keep w a F0 F1 rest s0 s1 t :
  free_set_list a = F0 :: F1 :: rest ->
  ts_set F0 = Some s0 -> ts_set F1 = Some s1 ->
  stale_at (ssmem_ts_list_len w) s0 s1 t ->
  reclaim_free_sets w a = Ok (a, 0).
Proof.
  intros Hl H0 H1 Hn. unfold reclaim_free_sets.
  rewrite Hl, H0, H1, (ts_compare_false _ _ _ _ Hn). reflexivity.
Qed.

(** ** C1: promotion of the suffix of the free-set list *)

(** C1: let [mem_reclaim] run on an allocator whose free-set list is
    [F0; F1; ...; Fk], counted by [free_set_num], F0 and F1 carrying
    snapshots.  If every entry of F0's snapshot is strictly greater than
    that of F1's, the free-set list becomes [F0], [F1; ...; Fk] is appended
    in order to the collected-set list, [free_set_num] is 1,
    [collected_set_num] has grown by k and k is returned.  If the
    comparison fails, both lists and both counters are unchanged and 0 is
    returned. *)
Theorem mem_reclaim_promotes_suffix (w w1 : world) (a a1 : ssmem_allocator)
    (F0 F1 : ssmem_free_set) (rest : list ssmem_free_set) (s0 s1 : buffer) :
  reclaim_released w a = Ok (w1, a1) ->
  free_set_list a = F0 :: F1 :: rest ->
  ts_set F0 = Some s0 -> ts_set F1 = Some s1 ->
  free_set_num a = Z.of_nat (length (free_set_list a)) ->
  free_set_num a <= 2 ^ 31 ->
  let k := Z.of_nat (length (F1 :: rest)) in
  (newer_on 0 (ssmem_ts_list_len w) s0 s1 ->
     exists a', ssmem_mem_reclaim w a = Ok (w1, a', k) /\
       free_set_list a' = [F0] /\
       collected_set_list a' = collected_set_list a ++ F1 :: rest /\
       free_set_num a' = 1 /\
       collected_set_num a' = wrap64 (collected_set_num a + k)) /\
  ((exists t, stale_at (ssmem_ts_list_len w) s0 s1 t) ->
     exists a', ssmem_mem_reclaim w a = Ok (w1, a', 0) /\
       free_set_list a' = free_set_list a /\
       collected_set_list a' = collected_set_list a /\
       free_set_num a' = free_set_num a /\
       collected_set_num a' = collected_set_num a).
Proof.
  intros Hrel Hl H0 H1 Hnum Hbound k.
  destruct (reclaim_released_frame _ _ _ _ Hrel) as ((l & n & ->) & Hlen & _).
  assert (Hk : to_int (wrap64 (free_set_num a - 1)) = k).
  { rewrite Hnum, Hl in *. subst k. cbn [length] in *.
    rewrite wrap64_small by lia. rewrite to_int_small by lia. lia. }
  unfold ssmem_mem_reclaim. rewrite Hrel. cbn. split.
  - intros Hnewer. rewrite <- Hlen in Hnewer.
    rewrite (reclaim_free_sets_promote w1 (with_released a l n) F0 F1 rest s0 s1)
      by assumption.
    cbn. rewrite Hk. eexists. split; [reflexivity|]. cbn. auto.
  - intros [t Hstale]. rewrite <- Hlen in Hstale.
    rewrite (reclaim_free_sets_keep w1 (with_released a l n) F0 F1 rest s0 s1 t)
      by assumption.
    cbn. eexists. split; [reflexivity|]. cbn. auto.
Qed.

Lemma mem_reclaim_promotes_suffix_witness :
  (exists a', ssmem_mem_reclaim (registry_of_len 1) three_full_sets
                = Ok (registry_of_len 1, a', 2) /\
     free_set_list a' = [full_set [Some 3] 4160 4176] /\
     collected_set_list a' =
       [full_set [Some 0] 4192 4208; full_set [Some 2] 4128 4144;
        full_set [Some 1] 4096 4112] /\
     free_set_num a' = 1 /\ collected_set_num a' = 3) /\
  (exists a', ssmem_mem_reclaim (registry_of_len 1) three_full_sets_idle
                = Ok (registry_of_len 1, a', 0) /\
     free_set_list a' = free_set_list three_full_sets_idle /\
     collected_set_list a' = collected_set_list three_full_sets_idle /\
     free_set_num a' = 3 /\ collected_set_num a' = 1).
Proof.
  split.
  - refine (proj1 (mem_reclaim_promotes_suffix (registry_of_len 1) (registry_of_len 1)
              three_full_sets three_full_sets _ _ _ [Some 3] [Some 2]
              eq_refl eq_refl eq_refl eq_refl eq_refl _) _).
    + cbn. lia.
    + intros t Ht. cbn in Ht. assert (t = 0) as -> by lia. exists 3, 2. entries.
  - refine (proj2 (mem_reclaim_promotes_suffix (registry_of_len 1) (registry_of_len 1)
              three_full_sets_idle three_full_sets_idle _ _ _ [Some 2] [Some 2]
              eq_refl eq_refl eq_refl eq_refl eq_refl _) _).
    + cbn. lia.
    + exists 0. split; [cbn; lia|]. split.
      * intros t Ht. lia.
      * exists 2, 2. entries.
Defined.

(** ** C8: a second reclamation pass does nothing *)

Lemma reclaim_released_again w a w1 a1 a2 :
  reclaim_released w a = Ok (w1, a1) ->
  released_mem_list a2 = released_mem_list a1 ->
  released_num a2 = released_num a1 ->
  reclaim_released w1 a2 = Ok (w1, a2).
Proof.
  unfold reclaim_released. intros H Hl Hn.
  destruct (released_num a >? 0) eqn:Hpos.
  - destruct (released_mem_list a) as [|rel_cur [|rel_nxt rest]] eqn:Hrel;
      [discriminate| |].
    + injection H as <- <-. now rewrite Hn, Hpos, Hl, Hrel.
    + apply bind_Ok in H as (newer & Hcmp & H). destruct newer.
      * injection H as <- <-. cbn in Hl, Hn. now rewrite Hn, Hl.
      * injection H as <- <-. now rewrite Hn, Hpos, Hl, Hrel, Hcmp.
  - injection H as <- <-. now rewrite Hn, Hpos.
Qed.

Lemma reclaim_free_sets_again w a a1 n :
  reclaim_free_sets w a = Ok (a1, n) ->
  reclaim_free_sets w a1 = Ok (a1, 0).
Proof.
  unfold reclaim_free_sets. intros H.
  destruct (free_set_list a) as [|fs_cur [|fs_nxt rest]] eqn:Hl; [discriminate| |].
  - destruct (ts_set fs_cur) eqn:H0; injection H as <- <-; now rewrite Hl, H0.
  - destruct (ts_set fs_cur) eqn:H0; [|injection H as <- <-; now rewrite Hl, H0].
    destruct (ts_set fs_nxt) eqn:H1; [|injection H as <- <-; now rewrite Hl, H0, H1].
    apply bind_Ok in H as (newer & Hcmp & H). destruct newer.
    + injection H as <- <-. cbn. now rewrite H0.
    + injection H as <- <-. now rewrite Hl, H0, H1, Hcmp.
Qed.

(** With fewer than two snapshotted sets in the list, the free-set block
    answers 0 and changes nothing. *)
Lemma reclaim_free_sets_few w a a1 n :
  reclaim_free_sets w a = Ok (a1, n) ->
  (snapshotted_count (free_set_list a) < 2)%nat ->
  a1 = a /\ n = 0.
Proof.
  unfold reclaim_free_sets, snapshotted_count. intros H Hc.
  destruct (free_set_list a) as [|fs_cur [|fs_nxt rest]] eqn:Hl; [discriminate| |].
  - destruct (ts_set fs_cur); injection H as <- <-; auto.
  - destruct (ts_set fs_cur) eqn:H0; [|injection H as <- <-; auto].
    destruct (ts_set fs_nxt) eqn:H1; [|injection H as <- <-; auto].
    cbn [List.filter] in Hc. unfold snapshotted in Hc at 1 2.
    rewrite H0, H1 in Hc. cbn [length] in Hc. lia.
Qed.

(** C8 fails on its last clause: [two_released] has no snapshotted free
    set at all, yet a reclamation pass over it is not a no-op: the record
    of 8000 is handed to the backend and unlinked, and [released_num] goes
    from 2 to 1. *)
Lemma mem_reclaim_frees_with_no_snapshotted_set :
  snapshotted_count (free_set_list two_released) = 0%nat /\
  released_num two_released = 2 /\
  backend_freed (one_thread 5) = [] /\
  exists w1 a1,
    ssmem_mem_reclaim (one_thread 5) two_released = Ok (w1, a1, 0) /\
    backend_freed w1 = [8000] /\
    released_mem_list a1 = [ {| rel_mem := 9000; rel_ts_set := [Some 4] |} ] /\
    released_num a1 = 1 /\
    a1 <> two_released.
Proof.
  split; [reflexivity|]. split; [reflexivity|]. split; [reflexivity|].
  eexists _, _. split; [reflexivity|]. split; [reflexivity|].
  split; [reflexivity|]. split; [reflexivity|].
  intros E. apply (f_equal released_num) in E. vm_compute in E. discriminate E.
Qed.

(** C8, amended: when [mem_reclaim] has run, running it again at once
    promotes nothing: the second call returns 0 and leaves the allocator
    (its free-set, collected-set and released lists) and the backend as
    they are.  A pass over a free-set list with fewer than two snapshotted
    sets promotes nothing: it returns 0 and leaves the free-set and
    collected-set lists and their counters unchanged.  Such a pass is a
    no-op on the whole state only when, in addition, [released_num] is 0,
    the released list holds a single record, or the snapshot of its first
    record is not strictly greater than that of the second; when it is
    strictly greater, the pass hands every record behind the first to the
    backend, keeps the first alone and sets [released_num] to 1. *)
Theorem mem_reclaim_idempotent (w w1 : world) (a a1 : ssmem_allocator) (n : Z) :
  ssmem_mem_reclaim w a = Ok (w1, a1, n) ->
  ssmem_mem_reclaim w1 a1 = Ok (w1, a1, 0) /\
  ((snapshotted_count (free_set_list a) < 2)%nat ->
     n = 0 /\
     free_set_list a1 = free_set_list a /\
     collected_set_list a1 = collected_set_list a /\
     free_set_num a1 = free_set_num a /\
     collected_set_num a1 = collected_set_num a /\
     (released_num a = 0 \/ (exists r, released_mem_list a = [r]) ->
      w1 = w /\ a1 = a) /\
     (forall r0 r1 rest,
        0 < released_num a -> released_mem_list a = r0 :: r1 :: rest ->
        (forall t, stale_at (ssmem_ts_list_len w)
                     (rel_ts_set r0) (rel_ts_set r1) t ->
           w1 = w /\ a1 = a) /\
        (newer_on 0 (ssmem_ts_list_len w) (rel_ts_set r0) (rel_ts_set r1) ->
           backend_freed w1
           = backend_freed w ++ rel_mem r1 :: map rel_mem rest /\
           released_mem_list a1 = [r0] /\ released_num a1 = 1 /\
           a1 = with_released a [r0] 1))).
Proof.
  unfold ssmem_mem_reclaim. intros H.
  apply bind_Ok in H as ([w' a'] & Hrel & H).
  apply bind_Ok in H as ([a'' n'] & Hfs & H). injection H as -> -> ->.
  destruct (reclaim_free_sets_frame _ _ _ _ Hfs) as (Hl & Hn & _).
  split.
  - rewrite (reclaim_released_again _ _ _ _ a1 Hrel Hl Hn). cbn.
    now rewrite (reclaim_free_sets_again _ _ _ _ Hfs).
  - intros Hc.
    assert (Hfew : (snapshotted_count (free_set_list a') < 2)%nat).
    { destruct (reclaim_released_frame _ _ _ _ Hrel) as ((l & m & ->) & _).
      exact Hc. }
    destruct (reclaim_free_sets_few _ _ _ _ Hfs Hfew) as [-> ->].
    clear Hfs Hl Hn Hfew.
    split; [reflexivity|].
    assert (Hframe : exists l m, a' = with_released a l m)
      by exact (proj1 (reclaim_released_frame _ _ _ _ Hrel)).
    destruct Hframe as (l & m & Hframe).
    split; [now rewrite Hframe|]. split; [now rewrite Hframe|].
    split; [now rewrite Hframe|]. split; [now rewrite Hframe|].
    clear l m Hframe. unfold reclaim_released in Hrel. split.
    + intros [Hzero | (r & Hone)].
      * rewrite Hzero in Hrel. cbn in Hrel. now injection Hrel as <- <-.
      * rewrite Hone in Hrel.
        destruct (released_num a >? 0); now injection Hrel as <- <-.
    + intros r0 r1 rest Hpos Hlist. rewrite Hlist in Hrel.
      destruct (Z.gtb_spec (released_num a) 0) as [_|]; [|lia].
      split.
      * intros t Hstale. rewrite (ts_compare_false _ _ _ _ Hstale) in Hrel.
        cbn in Hrel. now injection Hrel as <- <-.
      * intros Hnewer. rewrite (ts_compare_true _ _ _ Hnewer) in Hrel.
        cbn in Hrel. injection Hrel as <- <-. cbn. auto.
Qed.

Lemma mem_reclaim_idempotent_witness :
  (exists a1,
     ssmem_mem_reclaim (registry_of_len 1) three_full_sets
       = Ok (registry_of_len 1, a1, 2) /\
     ssmem_mem_reclaim (registry_of_len 1) a1 = Ok (registry_of_len 1, a1, 0)) /\
  (exists w1 a1,
     ssmem_mem_reclaim (one_thread 5) two_released = Ok (w1, a1, 0) /\
     free_set_list a1 = free_set_list two_released /\
     collected_set_list a1 = collected_set_list two_released /\
     free_set_num a1 = free_set_num two_released /\
     collected_set_num a1 = collected_set_num two_released /\
     backend_freed w1 = [8000] /\
     released_num a1 = 1).
Proof.
  split.
  - eexists. split; [reflexivity|].
    exact (proj1 (mem_reclaim_idempotent (registry_of_len 1) (registry_of_len 1)
                    three_full_sets _ 2 eq_refl)).
  - eexists _, _. split; [reflexivity|].
    destruct (proj2 (mem_reclaim_idempotent (one_thread 5) _
                       two_released _ 0 eq_refl))
      as (_ & Hf & Hc & Hfn & Hcn & _ & Hrel).
    { cbn. lia. }
    split; [exact Hf|]. split; [exact Hc|]. split; [exact Hfn|].
    split; [exact Hcn|].
    destruct (Hrel _ _ _ ltac:(cbn; lia) eq_refl) as (_ & Hnewer).
    destruct Hnewer as (Hb & _ & Hnum & _).
    { intros t Ht. assert (t = 0) as -> by (cbn in Ht; lia).
      exists 4, 3. unfold entry. cbn. repeat split; lia. }
    split; [exact Hb | exact Hnum].
Defined.

(** ** C7: reclamation of released records *)

(** The allocator once [ssmem_release] has pushed the record of [obj]. *)
Lemma release_runs_reclaim cfg w a obj s0 :
  0 <= released_num a < 2 ^ 31 - 1 ->
  SSMEM_GC_RLSE_SET_SIZE cfg <= released_num a + 1 ->
  ssmem_ts_set_collect w (Some (malloc_words (ssmem_ts_list_len w))) = Ok s0 ->
  ssmem_release cfg w a obj =
    '(w1, a2, _) ← ssmem_mem_reclaim w
        (with_released a ({| rel_mem := obj; rel_ts_set := s0 |} :: released_mem_list a)
           (released_num a + 1));
    Ok (w1, a2).
Proof.
  intros Hn Hthr Hs0. unfold ssmem_release, ssmem_released_node_new.
  cbn [rel_mem rel_ts_set]. rewrite Hs0. cbn [mbind res_bind rbind].
  rewrite wrap64_small by lia. rewrite to_int_small by lia.
  destruct (Z.geb_spec (released_num a + 1) (SSMEM_GC_RLSE_SET_SIZE cfg)); [|lia].
  reflexivity.
Qed.

Lemma mem_reclaim_released_fields w a w1 a1 w' a' n :
  reclaim_released w a = Ok (w1, a1) ->
  ssmem_mem_reclaim w a = Ok (w', a', n) ->
  w' = w1 /\ released_mem_list a' = released_mem_list a1 /\
  released_num a' = released_num a1.
Proof.
  unfold ssmem_mem_reclaim. intros -> H. cbn in H.
  apply bind_Ok in H as ([a2 m] & Hfs & H). injection H as <- <- <-.
  destruct (reclaim_free_sets_frame _ _ _ _ Hfs) as (? & ? & _). auto.
Qed.

(** C7: let [ssmem_release] push the record R0 of [obj], with snapshot
    [s0], on a released list that then counts at least
    [SSMEM_GC_RLSE_SET_SIZE] records: the reclamation pass runs.  If the
    list had a head R1 and every entry of [s0] is strictly greater than
    that of R1's snapshot, the objects of R1 and of every record after it
    are handed to the backend's [free], only R0 stays on the released list
    and [released_num] is 1.  If there was no R1, or if the comparison
    fails, the released list is the old one with R0 pushed and nothing is
    freed.  In both cases the call returns whenever the free-set block of
    the pass does. *)
Theorem release_reclaims_older_records (cfg : config) (w : world)
    (a : ssmem_allocator) (obj : Z) (s0 : buffer) :
  0 <= released_num a < 2 ^ 31 - 1 ->
  SSMEM_GC_RLSE_SET_SIZE cfg <= released_num a + 1 ->
  ssmem_ts_set_collect w (Some (malloc_words (ssmem_ts_list_len w))) = Ok s0 ->
  let R0 := {| rel_mem := obj; rel_ts_set := s0 |} in
  (forall R1 rest,
     released_mem_list a = R1 :: rest ->
     newer_on 0 (ssmem_ts_list_len w) s0 (rel_ts_set R1) ->
     let w1 := log_free w (map rel_mem (R1 :: rest)) in
     (forall a2 n, reclaim_free_sets w1 (with_released a [R0] 1) = Ok (a2, n) ->
        ssmem_release cfg w a obj = Ok (w1, a2)) /\
     (forall w' a', ssmem_release cfg w a obj = Ok (w', a') ->
        released_mem_list a' = [R0] /\ released_num a' = 1 /\
        backend_freed w' = backend_freed w ++ map rel_mem (R1 :: rest))) /\
  (released_mem_list a = [] \/
   (exists R1 rest t, released_mem_list a = R1 :: rest /\
      stale_at (ssmem_ts_list_len w) s0 (rel_ts_set R1) t) ->
   let pushed := with_released a (R0 :: released_mem_list a) (released_num a + 1) in
   (forall a2 n, reclaim_free_sets w pushed = Ok (a2, n) ->
      ssmem_release cfg w a obj = Ok (w, a2)) /\
   (forall w' a', ssmem_release cfg w a obj = Ok (w', a') ->
      released_mem_list a' = R0 :: released_mem_list a /\
      released_num a' = released_num a + 1 /\
      backend_freed w' = backend_freed w)).
Proof.
  intros Hn Hthr Hs0 R0.
  pose proof (release_runs_reclaim cfg w a obj s0 Hn Hthr Hs0) as Hrun.
  fold R0 in Hrun. split.
  - intros R1 rest Hl Hnewer w1.
    assert (Hrel : reclaim_released w
              (with_released a (R0 :: released_mem_list a) (released_num a + 1))
            = Ok (w1, with_released a [R0] 1)).
    { unfold reclaim_released. cbn [released_num released_mem_list with_released].
      destruct (Z.gtb_spec (released_num a + 1) 0); [|lia].
      rewrite Hl. cbn [rel_ts_set R0].
      now rewrite (ts_compare_true _ _ _ Hnewer). }
    split.
    + intros a2 n Hfs. rewrite Hrun. unfold ssmem_mem_reclaim.
      rewrite Hrel. cbn. now rewrite Hfs.
    + intros w' a' H. rewrite Hrun in H.
      apply bind_Ok in H as ([[w2 a2] n] & Hmr & H). injection H as <- <-.
      destruct (mem_reclaim_released_fields _ _ _ _ _ _ _ Hrel Hmr) as (-> & -> & ->).
      auto.
  - intros Hcase pushed.
    assert (Hrel : reclaim_released w pushed = Ok (w, pushed)).
    { unfold reclaim_released, pushed.
      cbn [released_num released_mem_list with_released].
      destruct (Z.gtb_spec (released_num a + 1) 0); [|lia].
      destruct Hcase as [-> | (R1 & rest & t & -> & Hstale)]; [reflexivity|].
      cbn [rel_ts_set R0]. now rewrite (ts_compare_false _ _ _ _ Hstale). }
    split.
    + intros a2 n Hfs. rewrite Hrun. fold pushed. unfold ssmem_mem_reclaim.
      rewrite Hrel. cbn. now rewrite Hfs.
    + intros w' a' H. rewrite Hrun in H. fold pushed in H.
      apply bind_Ok in H as ([[w2 a2] n] & Hmr & H). injection H as <- <-.
      destruct (mem_reclaim_released_fields _ _ _ _ _ _ _ Hrel Hmr) as (-> & -> & ->).
      auto.
Qed.

Lemma release_reclaims_older_records_witness :
  ssmem_release example_config (one_thread 5) two_released 10000
  = Ok (log_free (one_thread 5) [9000; 8000],
        with_released two_released
          [ {| rel_mem := 10000; rel_ts_set := [Some 5] |} ] 1).
Proof.
  refine (proj1 (proj1 (release_reclaims_older_records example_config (one_thread 5)
            two_released 10000 [Some 5] _ _ eq_refl)
            {| rel_mem := 9000; rel_ts_set := [Some 4] |}
            [ {| rel_mem := 8000; rel_ts_set := [Some 3] |} ] eq_refl _) _ 0 eq_refl).
  - cbn. lia.
  - cbn. lia.
  - intros t Ht. cbn in Ht. assert (t = 0) as -> by lia. exists 5, 4. entries.
Defined.

(** ** C6: when the arena takes a new chunk *)

Lemma alloc_from_arena cfg chunk w a size :
  collected_set_list a = [] ->
  ssmem_alloc cfg chunk w a size =
    a1 ← (if wrap64 (mem_curr a + size) >=? mem_size a
          then new_chunk cfg chunk a size else Ok a);
    w' ← ts_next_on_alloc cfg w;
    Ok (w', with_arena a1 (mem a1) (wrap64 (mem_curr a1 + size)) (mem_size a1)
              (tot_size a1) (mem_chunks a1), wrap64 (mem a1 + mem_curr a1)).
Proof.
  intros Hc. unfold ssmem_alloc. rewrite Hc.
  destruct (if wrap64 (mem_curr a + size) >=? mem_size a
            then new_chunk cfg chunk a size else Ok a); reflexivity.
Qed.

Lemma new_chunk_Ok cfg chunk a size a1 :
  new_chunk cfg chunk a size = Ok a1 ->
  mem a1 = chunk /\ mem_curr a1 = 0 /\ mem_chunks a1 = chunk :: mem_chunks a.
Proof.
  unfold new_chunk. intros H. apply bind_Ok in H as (s & _ & H).
  injection H as <-. auto.
Qed.

Lemma new_chunk_same_size cfg chunk a size :
  SSMEM_MEM_SIZE_DOUBLE cfg = false -> size <= mem_size a ->
  new_chunk cfg chunk a size =
    Ok (with_arena a chunk 0 (mem_size a) (wrap64 (tot_size a + mem_size a))
          (chunk :: mem_chunks a)).
Proof.
  intros Hd Hs. unfold new_chunk. rewrite Hd.
  destruct (Z.gtb_spec size (mem_size a)); [lia | reflexivity].
Qed.

(** C6 fails at the exact fit: with 16 bytes left in a chunk of 4096,
    [ssmem_alloc] of 16 bytes takes a new chunk (here at 8192) and returns
    its base, 8192, not 4096 + 4080. *)
Lemma alloc_exact_fit_takes_new_chunk :
  collected_set_list sixteen_left = [] /\
  mem_curr sixteen_left + 16 = mem_size sixteen_left /\
  exists a',
    ssmem_alloc example_config 8192 (one_thread 0) sixteen_left 16
      = Ok (one_thread 0, a', 8192) /\
    mem_chunks a' = [8192; 4096] /\
    mem_chunks sixteen_left = [4096] /\
    mem_curr a' = 16.
Proof. repeat split. eexists. repeat split. Qed.

(** ** C5: the pointers the arena returns *)




Lemma gc_thread_init_registered slot w id :
  ssmem_ts_local w = None \/ registered w ->
  registered (fst (ssmem_gc_thread_init slot w id)).
Proof.
  unfold ssmem_gc_thread_init, registered.
  destruct (ssmem_ts_local w) as [me|] eqn:E; cbn.
  - intros [?|H]; [discriminate|]. now rewrite E.
  - intros _. now rewrite Z.eqb_refl.
Qed.

Lemma alloc_bump cfg chunk w w' a size :
  collected_set_list a = [] ->
  wrap64 (mem_curr a + size) < mem_size a ->
  ts_next_on_alloc cfg w = Ok w' ->
  ssmem_alloc cfg chunk w a size =
    Ok (w', with_arena a (mem a) (wrap64 (mem_curr a + size)) (mem_size a)
              (tot_size a) (mem_chunks a),
        wrap64 (mem a + mem_curr a)).
Proof.
  intros Hc Hlt Hts. rewrite (alloc_from_arena cfg chunk w a size Hc).
  destruct (Z.geb_spec (wrap64 (mem_curr a + size)) (mem_size a)); [lia|].
  cbn. now rewrite Hts.
Qed.




(** ** The shape of the lists is kept by every operation *)

Lemma lists_ok_ext a a' :
  fs_size a' = fs_size a ->
  free_set_list a' = free_set_list a ->
  collected_set_list a' = collected_set_list a ->
  available_set_list a' = available_set_list a ->
  lists_ok a -> lists_ok a'.
Proof. unfold lists_ok. intros -> -> -> ->. auto. Qed.

Lemma init_lists_ok chunk slot w size free_set_size id :
  0 <= free_set_size < 2 ^ 64 ->
  lists_ok (snd (ssmem_alloc_init_fs_size chunk slot w size free_set_size id)).
Proof.
  intros Hfs. unfold ssmem_alloc_init_fs_size.
  destruct (ssmem_gc_thread_init slot w id) as [w' p]. cbn.
  split; [exact Hfs|]. cbn.
  assert (made_for free_set_size (ssmem_free_set_new free_set_size)).
  { split; [reflexivity|]. cbn. unfold malloc_words. now rewrite length_replicate. }
  repeat split; auto.
  eexists _, []. repeat split; cbn; auto; lia.
Qed.

Lemma reclaim_released_lists_ok w a w1 a1 :
  reclaim_released w a = Ok (w1, a1) -> lists_ok a -> lists_ok a1.
Proof.
  intros H. destruct (reclaim_released_frame _ _ _ _ H) as ((l & n & ->) & _).
  now apply lists_ok_ext.
Qed.

(** The free-set block keeps the head of the free-set list. *)
Lemma reclaim_free_sets_lists_ok w a a1 n :
  reclaim_free_sets w a = Ok (a1, n) -> lists_ok a ->
  lists_ok a1 /\
  forall head rest, free_set_list a = head :: rest ->
    exists rest', free_set_list a1 = head :: rest' /\
      (rest' = rest \/ rest' = []).
Proof.
  unfold reclaim_free_sets. intros H Hok.
  assert (Hsame : forall head rest, free_set_list a = head :: rest ->
            exists rest', free_set_list a = head :: rest' /\
              (rest' = rest \/ rest' = [])) by eauto.
  destruct (free_set_list a) as [|fs_cur suffix] eqn:Hl; [discriminate|].
  destruct (ts_set fs_cur); [|injection H as <- <-; rewrite Hl; auto].
  destruct suffix as [|fs_nxt rest]; [injection H as <- <-; rewrite Hl; auto|].
  destruct (ts_set fs_nxt); [|injection H as <- <-; rewrite Hl; auto].
  apply bind_Ok in H as (newer & _ & H).
  destruct newer; [|injection H as <- <-; rewrite Hl; auto].
  injection H as <- <-. split.
  - destruct Hok as (Hfs & Hfree & Hcoll & Havail & head & tl & Hhd & Hcurr & Hfull).
    rewrite Hl in Hfree, Hhd. injection Hhd as <- <-.
    inversion Hfree as [|? ? Hm0 Hmrest]; subst.
    split; [exact Hfs|]. cbn.
    split; [auto|]. split; [apply Forall_app; auto|]. split; [exact Havail|].
    exists fs_cur, []. auto.
  - intros head rest0 [= <- <-]. cbn. eauto.
Qed.

Lemma mem_reclaim_lists_ok w a w1 a1 n :
  ssmem_mem_reclaim w a = Ok (w1, a1, n) -> lists_ok a ->
  lists_ok a1 /\
  forall head rest, free_set_list a = head :: rest ->
    exists rest', free_set_list a1 = head :: rest' /\
      (rest' = rest \/ rest' = []).
Proof.
  unfold ssmem_mem_reclaim. intros H Hok.
  apply bind_Ok in H as ([w' a'] & Hrel & H).
  apply bind_Ok in H as ([a'' n'] & Hfs & H). injection H as <- <- <-.
  pose proof (reclaim_released_lists_ok _ _ _ _ Hrel Hok) as Hok'.
  destruct (reclaim_free_sets_lists_ok _ _ _ _ Hfs Hok') as (Hok'' & Hhead).
  split; [exact Hok''|].
  intros head rest Hl. apply Hhead.
  destruct (reclaim_released_frame _ _ _ _ Hrel) as ((l & m & ->) & _). exact Hl.
Qed.

Lemma alloc_lists_ok cfg chunk w a size w' a' m :
  ssmem_alloc cfg chunk w a size = Ok (w', a', m) -> lists_ok a ->
  lists_ok a' /\ free_set_list a' = free_set_list a /\ fs_size a' = fs_size a.
Proof.
  unfold ssmem_alloc. intros H Hok.
  apply bind_Ok in H as ([a1 m1] & Hbody & H).
  apply bind_Ok in H as (w1 & _ & H). injection H as <- <- <-.
  destruct (collected_set_list a) as [|cs cs_next] eqn:Hc.
  - apply bind_Ok in Hbody as (a2 & Hnew & Hbody). injection Hbody as <- <-.
    assert (Hframe : fs_size a2 = fs_size a /\ free_set_list a2 = free_set_list a /\
                     collected_set_list a2 = collected_set_list a /\
                     available_set_list a2 = available_set_list a).
    { destruct (wrap64 (mem_curr a + size) >=? mem_size a).
      - unfold new_chunk in Hnew. apply bind_Ok in Hnew as (s & _ & Hnew).
        injection Hnew as <-. auto.
      - injection Hnew as <-. auto. }
    destruct Hframe as (? & ? & ? & ?).
    split; [|auto]. now apply (lists_ok_ext a).
  - apply bind_Ok in Hbody as (v & _ & Hbody).
    destruct Hok as (Hfs & Hfree & Hcoll & Havail & Hhead).
    rewrite Hc in Hcoll. inversion Hcoll as [|? ? Hmcs Hmnext]; subst.
    destruct (curr cs - 1 <=? 0); injection Hbody as <- <-; cbn.
    + split; [|auto]. split; [exact Hfs|]. cbn. repeat split; auto.
    + split; [|auto]. split; [exact Hfs|]. cbn. repeat split; auto.
Qed.

Lemma array_words_exact n :
  0 <= n -> block_fits n -> array_words n = n.
Proof.
  unfold block_fits, array_words, free_set_bytes, sizeof_free_set.
  intros Hn Hfit.
  assert (E1 : wrap64 (n * 8) = n * 8).
  { unfold wrap64. apply Z.mod_small. lia. }
  rewrite E1.
  assert (E2 : wrap64 (64 + n * 8) = 64 + n * 8).
  { unfold wrap64. apply Z.mod_small. lia. }
  rewrite E2.
  destruct (Z.ltb_spec (64 + n * 8) 64); [lia|].
  replace (64 + n * 8 - 64) with (n * 8) by lia.
  apply Z.div_mul. lia.
Qed.

Lemma array_words_le n : 0 <= n -> 0 <= array_words n <= n.
Proof.
  unfold array_words, free_set_bytes, sizeof_free_set. intros Hn.
  assert (H1 : 0 <= wrap64 (n * 8) <= n * 8).
  { unfold wrap64. split; [apply Z.mod_pos_bound; lia|].
    apply Z.mod_le; lia. }
  set (x := wrap64 (n * 8)) in *.
  assert (H2 : 0 <= wrap64 (64 + x) <= 64 + x).
  { unfold wrap64. split; [apply Z.mod_pos_bound; lia|].
    apply Z.mod_le; lia. }
  set (y := wrap64 (64 + x)) in *.
  destruct (Z.ltb_spec y 64); [lia|].
  split; [apply Z.div_pos; lia|].
  apply Z.div_le_upper_bound; lia.
Qed.

(** From capacity [2^61] on the byte count of a free set wraps: the block
    holds the header alone and the pointer array has no word. *)
Lemma array_words_wrapped : array_words (2 ^ 61) = 0.
Proof. reflexivity. Qed.

Lemma array_words_wraps n :
  0 <= n < 2 ^ 64 -> ~ block_fits n -> array_words n < n.
Proof.
  unfold block_fits, array_words, free_set_bytes, sizeof_free_set, wrap64.
  intros Hn Hwrap.
  destruct (Z.ltb_spec ((64 + (n * 8) mod 2 ^ 64) mod 2 ^ 64) 64); [lia|].
  apply Z.div_lt_upper_bound; [lia|].
  change (2 ^ 64) with 18446744073709551616 in *.
  Z.div_mod_to_equations. lia.
Qed.

Lemma get_avail_made_for a :
  Forall (made_for (fs_size a)) (available_set_list a) ->
  0 <= fs_size a ->
  let '(a3, fs_new) := ssmem_free_set_get_avail a (fs_size a) in
  made_for (fs_size a) fs_new /\ curr fs_new = 0 /\
  Forall (made_for (fs_size a)) (available_set_list a3) /\
  fs_size a3 = fs_size a /\ free_set_list a3 = free_set_list a /\
  collected_set_list a3 = collected_set_list a.
Proof.
  intros Havail Hfs. unfold ssmem_free_set_get_avail.
  destruct (available_set_list a) as [|fs rest] eqn:E.
  - rewrite E. repeat split; auto.
    cbn. unfold malloc_words. now rewrite length_replicate.
  - inversion Havail as [|? ? [Hs Hl] Hrest]; subst. cbn. repeat split; auto.
Qed.

(** After [free_prepare] the head free set has room, the capacity being at
    least 1. *)
Lemma free_prepare_lists_ok w a w' a' :
  free_prepare w a = Ok (w', a') -> lists_ok a ->
  lists_ok a' /\
  (1 <= fs_size a -> block_fits (fs_size a) -> head_has_room a') /\
  (forall head rest, free_set_list a = head :: rest ->
     curr head = size head ->
     exists new ts' rest',
       free_set_list a' = new :: fs_with_ts_set head (Some ts') :: rest' /\
       curr new = 0 /\ size new = fs_size a).
Proof.
  unfold free_prepare. intros H Hok.
  pose proof Hok as (Hfs & Hfree & Hcoll & Havail & head & rest & Hl & Hcurr & Hfull).
  rewrite Hl in H, Hfree. inversion Hfree as [|? ? [Hsz Hlen] Hmrest]; subst.
  destruct (Z.eqb_spec (wrap64 (curr head)) (wrap64 (size head))) as [Heq|Hne].
  - rewrite !wrap64_small in Heq by lia.
    unfold snapshot_and_reclaim in H.
    apply bind_Ok in H as (ts' & _ & H).
    apply bind_Ok in H as ([[w1 a2] n] & Hmr & H).
    match type of Hmr with ssmem_mem_reclaim _ ?x = _ => set (a1 := x) in * end.
    assert (Hok1 : lists_ok a1).
    { split; [exact Hfs|]. cbn.
      split; [constructor; [split; assumption | exact Hmrest]|].
      split; [exact Hcoll|]. split; [exact Havail|].
      exists (fs_with_ts_set head (Some ts')), rest. auto. }
    destruct (mem_reclaim_lists_ok _ _ _ _ _ Hmr Hok1) as (Hok2 & Hhead2).
    destruct (Hhead2 _ _ eq_refl) as (rest2 & Hl2 & Hrest2).
    destruct Hok2 as (Hfs2 & Hfree2 & Hcoll2 & Havail2 & _).
    pose proof (get_avail_made_for a2 Havail2 (proj1 Hfs2)) as Hga.
    destruct (ssmem_free_set_get_avail a2 (fs_size a2)) as [a3 fs_new].
    destruct Hga as ([Hnsz Hnlen] & Hncurr & Havail3 & Hfs3 & Hfree3 & Hcoll3).
    injection H as <- <-.
    assert (Hfs12 : fs_size a2 = fs_size a).
    { unfold ssmem_mem_reclaim in Hmr.
      apply bind_Ok in Hmr as ([wr ar] & Hrel & Hmr).
      apply bind_Ok in Hmr as ([af nf] & Hfsb & Hmr). injection Hmr as <- <- <-.
      destruct (reclaim_free_sets_frame _ _ _ _ Hfsb) as (_ & _ & _ & E).
      rewrite E.
      destruct (reclaim_released_frame _ _ _ _ Hrel) as ((l & m & ->) & _).
      reflexivity. }
    split.
    + split; [cbn; rewrite Hfs3; exact Hfs2|]. cbn. rewrite Hfs3.
      split; [constructor; [split; assumption | exact Hfree2]|].
      split; [rewrite Hcoll3; exact Hcoll2|]. split; [exact Havail3|].
      exists fs_new, (fs_with_ts_set head (Some ts') :: rest2).
      split; [now rewrite Hl2|]. split; [lia|].
      constructor.
      * split; [exact Heq | discriminate].
      * destruct Hrest2 as [-> | ->]; auto.
    + split.
      * intros Hcap Hfit. exists fs_new, (free_set_list a2). cbn.
        split; [reflexivity|]. rewrite Hncurr, Hnsz, Hnlen, Hfs12.
        rewrite array_words_exact by (assumption || lia). split; lia.
      * intros h r. rewrite Hl. intros [= <- <-] _.
        exists fs_new, ts', rest2. cbn.
        rewrite Hl2. split; [reflexivity|]. split; [exact Hncurr|].
        now rewrite Hnsz.
  - assert (curr head <> size head) by (intros E; apply Hne; now rewrite E).
    injection H as <- <-. split; [exact Hok|]. split.
    + intros Hcap Hfit. exists head, rest. split; [exact Hl|].
      rewrite Hlen, array_words_exact by (assumption || lia).
      split; lia.
    + intros h r. rewrite Hl. intros [= <- <-] E. contradiction.
Qed.

Lemma store_Ok b i v b' :
  store b i v = Ok b' ->
  0 <= i /\ (Z.to_nat i < length b)%nat /\ b' = <[Z.to_nat i := Some v]> b.
Proof.
  unfold store. destruct (Z.ltb_spec i 0); [discriminate|].
  destruct (Nat.ltb_spec (Z.to_nat i) (length b)); [|discriminate].
  intros [= <-]. auto.
Qed.

Lemma store_in_bounds b i v :
  0 <= i -> (Z.to_nat i < length b)%nat -> exists b', store b i v = Ok b'.
Proof.
  intros Hi Hlt. unfold store. destruct (Z.ltb_spec i 0); [lia|].
  destruct (Nat.ltb_spec (Z.to_nat i) (length b)); [|lia]. eauto.
Qed.

Lemma free_store_lists_ok a obj a' :
  free_store a obj = Ok a' -> lists_ok a ->
  lists_ok a' /\ head_nonempty a' /\ fs_size a' = fs_size a.
Proof.
  unfold free_store. intros H Hok.
  destruct Hok as (Hfs & Hfree & Hcoll & Havail & head & rest & Hl & Hcurr & Hfull).
  rewrite Hl in H, Hfree. inversion Hfree as [|? ? [Hsz Hlen] Hmrest]; subst.
  apply bind_Ok in H as (set' & Hst & H). injection H as <-.
  apply store_Ok in Hst as (Hc0 & Hclt & ->).
  rewrite Hlen in Hclt. pose proof (array_words_le (fs_size a) (proj1 Hfs)).
  split; [|split; [|reflexivity]].
  - split; [exact Hfs|]. cbn.
    split; [constructor; [|exact Hmrest]|].
    { split; [exact Hsz|]. cbn. now rewrite length_insert. }
    split; [exact Hcoll|]. split; [exact Havail|].
    eexists _, rest. split; [reflexivity|]. cbn. split; [lia | exact Hfull].
  - eexists _, rest. split; [reflexivity|]. cbn. lia.
Qed.

Lemma free_lists_ok cfg w a obj w' a' :
  ssmem_free cfg w a obj = Ok (w', a') -> lists_ok a ->
  lists_ok a' /\ head_nonempty a'.
Proof.
  unfold ssmem_free. intros H Hok.
  apply bind_Ok in H as ([w1 a1] & Hprep & H).
  apply bind_Ok in H as (a2 & Hst & H).
  apply bind_Ok in H as (w2 & _ & H). injection H as <- <-.
  destruct (free_prepare_lists_ok _ _ _ _ Hprep Hok) as (Hok1 & _).
  destruct (free_store_lists_ok _ _ _ Hst Hok1) as (? & ? & _). auto.
Qed.

Lemma release_lists_ok cfg w a obj w' a' :
  ssmem_release cfg w a obj = Ok (w', a') -> lists_ok a ->
  lists_ok a' /\
  forall head rest, free_set_list a = head :: rest ->
    exists rest', free_set_list a' = head :: rest' /\ (rest' = rest \/ rest' = []).
Proof.
  unfold ssmem_release. intros H Hok.
  apply bind_Ok in H as (ts' & _ & H).
  match type of H with
  | (if _ then _ else Ok (_, ?x)) = _ => set (a1 := x) in *
  end.
  assert (Hok1 : lists_ok a1) by now apply (lists_ok_ext a).
  destruct (_ >=? _).
  - apply bind_Ok in H as ([[w1 a2] n] & Hmr & H). injection H as <- <-.
    exact (mem_reclaim_lists_ok _ _ _ _ _ Hmr Hok1).
  - injection H as <- <-. split; [exact Hok1|]. intros head rest Hl. eauto.
Qed.

Lemma step_lists_ok cfg s s' :
  step cfg s s' -> lists_ok (snd s) ->
  lists_ok (snd s') /\ (head_nonempty (snd s) -> head_nonempty (snd s')).
Proof.
  intros Hstep Hok. destruct Hstep as
    [chunk w a size w' a' m H | w a obj w' a' H | w a obj w' a' H
    | w a w' a' n H | w a w' H | w a l n]; cbn [snd] in *.
  - destruct (alloc_lists_ok _ _ _ _ _ _ _ _ H Hok) as (? & Hfree & _).
    split; [assumption|]. unfold head_nonempty. now rewrite Hfree.
  - destruct (free_lists_ok _ _ _ _ _ _ H Hok). auto.
  - destruct (release_lists_ok _ _ _ _ _ _ H Hok) as (? & Hhead).
    split; [assumption|]. intros (head & rest & Hl & Hc).
    destruct (Hhead _ _ Hl) as (rest' & Hl' & _). exists head, rest'. auto.
  - destruct (mem_reclaim_lists_ok _ _ _ _ _ H Hok) as (? & Hhead).
    split; [assumption|]. intros (head & rest & Hl & Hc).
    destruct (Hhead _ _ Hl) as (rest' & Hl' & _). exists head, rest'. auto.
  - auto.
  - auto.
Qed.

Lemma step_fs_size cfg s s' :
  step cfg s s' -> lists_ok (snd s) -> fs_size (snd s') = fs_size (snd s).
Proof.
  intros Hstep Hok. destruct Hstep as
    [chunk w a size w' a' m H | w a obj w' a' H | w a obj w' a' H
    | w a w' a' n H | w a w' H | w a l n]; cbn [snd] in *; try reflexivity.
  - now destruct (alloc_lists_ok _ _ _ _ _ _ _ _ H Hok) as (_ & _ & ?).
  - unfold ssmem_free in H.
    apply bind_Ok in H as ([w1 a1] & Hprep & H).
    apply bind_Ok in H as (a2 & Hst & H).
    apply bind_Ok in H as (w2 & _ & H). injection H as <- <-.
    destruct (free_prepare_lists_ok _ _ _ _ Hprep Hok) as (Hok1 & _).
    destruct (free_store_lists_ok _ _ _ Hst Hok1) as (_ & _ & ->).
    clear Hst Hok1. unfold free_prepare in Hprep.
    destruct (free_set_list a) as [|fs rest]; [discriminate|].
    destruct (_ =? _); [|now injection Hprep as <- <-].
    unfold snapshot_and_reclaim in Hprep.
    apply bind_Ok in Hprep as (ts' & _ & Hprep).
    apply bind_Ok in Hprep as ([[wr ar] n] & Hmr & Hprep).
    unfold ssmem_free_set_get_avail in Hprep.
    assert (fs_size ar = fs_size a) as E.
    { unfold ssmem_mem_reclaim in Hmr.
      apply bind_Ok in Hmr as ([wq aq] & Hrel & Hmr).
      apply bind_Ok in Hmr as ([af nf] & Hfsb & Hmr). injection Hmr as <- <- <-.
      destruct (reclaim_free_sets_frame _ _ _ _ Hfsb) as (_ & _ & _ & ->).
      now destruct (reclaim_released_frame _ _ _ _ Hrel) as ((l & m & ->) & _). }
    destruct (available_set_list ar); injection Hprep as <- <-; exact E.
  - unfold ssmem_release in H. apply bind_Ok in H as (ts' & _ & H).
    destruct (_ >=? _); [|now injection H as <- <-].
    apply bind_Ok in H as ([[w1 a2] n] & Hmr & H). injection H as <- <-.
    unfold ssmem_mem_reclaim in Hmr.
    apply bind_Ok in Hmr as ([wq aq] & Hrel & Hmr).
    apply bind_Ok in Hmr as ([af nf] & Hfsb & Hmr). injection Hmr as <- <- <-.
    destruct (reclaim_free_sets_frame _ _ _ _ Hfsb) as (_ & _ & _ & ->).
    now destruct (reclaim_released_frame _ _ _ _ Hrel) as ((l & m & ->) & _).
  - unfold ssmem_mem_reclaim in H.
    apply bind_Ok in H as ([wq aq] & Hrel & H).
    apply bind_Ok in H as ([af nf] & Hfsb & H). injection H as <- <- <-.
    destruct (reclaim_free_sets_frame _ _ _ _ Hfsb) as (_ & _ & _ & ->).
    now destruct (reclaim_released_frame _ _ _ _ Hrel) as ((l & m & ->) & _).
Qed.

Lemma reachable_lists_ok cfg s : reachable cfg s -> lists_ok (snd s).
Proof.
  induction 1 as [chunk slot w size fs id Hfs | s s' _ IH Hstep].
  - now apply init_lists_ok.
  - now apply (step_lists_ok cfg s s').
Qed.



Lemma do_call_step cfg s c s' : do_call cfg s c = Ok s' -> step cfg s s'.
Proof.
  destruct s as [w a], s' as [w' a'], c as [chunk size | obj | obj |]; cbn; intros H.
  - apply bind_Ok in H as ([[w1 a1] m] & Hal & H). injection H as <- <-.
    exact (step_alloc cfg _ _ _ _ _ _ _ Hal).
  - exact (step_free cfg _ _ _ _ _ H).
  - exact (step_release cfg _ _ _ _ _ H).
  - apply bind_Ok in H as (w1 & Hts & H). injection H as <- <-.
    exact (step_ts_next cfg _ _ _ Hts).
Qed.

Lemma run_reachable cfg cs : forall s s',
  reachable cfg s -> run cfg s cs = Ok s' -> reachable cfg s'.
Proof.
  induction cs as [|c cs IH]; intros s s' Hr H; cbn in H.
  - now injection H as <-.
  - apply bind_Ok in H as (s1 & Hc & H).
    apply (IH s1 s'); [|exact H].
    exact (reach_step cfg _ _ Hr (do_call_step _ _ _ _ Hc)).
Qed.

Lemma fresh_reachable cfg n : 0 <= n < 2 ^ 64 -> reachable cfg (fresh n).
Proof. intros H. unfold fresh. now apply reach_init. Qed.

(** ** C10: the store of [ssmem_free] stays inside the free set *)

(** C10 fails for free sets of capacity 0: on a fresh allocator made with
    [free_set_size = 0], [ssmem_free] reaches its store with
    [fs->curr = 0 = fs->size], and the store is out of bounds. *)
Lemma free_store_capacity_zero :
  reachable example_config (fresh 0) /\
  exists w1 a1 head rest,
    free_prepare (fst (fresh 0)) (snd (fresh 0)) = Ok (w1, a1) /\
    free_set_list a1 = head :: rest /\
    curr head = 0 /\ size head = 0 /\
    free_store a1 4096 = Undefined /\
    ssmem_free example_config (fst (fresh 0)) (snd (fresh 0)) 4096 = Undefined.
Proof.
  split; [apply fresh_reachable; lia|].
  do 4 eexists. repeat split.
Qed.

(** The bound [fs->curr < fs->size] does not keep the store inside the block
    when the byte count [sizeof(ssmem_free_set_t) + size * 8] has wrapped:
    with capacity [2^61] the block is the header alone, the head has fill 0
    below its capacity, and the first store leaves the block. *)
Lemma free_store_capacity_wrapped :
  reachable example_config (fresh (2 ^ 61)) /\
  free_set_bytes (2 ^ 61) = sizeof_free_set /\
  exists head,
    free_set_list (snd (fresh (2 ^ 61))) = [head] /\
    curr head = 0 /\ size head = 2 ^ 61 /\ set head = [] /\
    ssmem_free example_config (fst (fresh (2 ^ 61))) (snd (fresh (2 ^ 61))) 4096
    = Undefined.
Proof.
  split; [apply fresh_reachable; lia|].
  split; [reflexivity|].
  eexists. split; [reflexivity|]. repeat split.
Qed.

Lemma after_first_free_reachable : reachable example_config after_first_free.
Proof.
  apply (reach_step example_config (fresh 1)).
  - apply fresh_reachable. lia.
  - apply (step_free example_config (fst (fresh 1)) (snd (fresh 1)) 4096).
    vm_compute. reflexivity.
Qed.

(** C10, amended: in every state reachable by alloc, free and release on
    an allocator whose free sets have a capacity of at least 1 for which the
    byte count [sizeof(ssmem_free_set_t) + capacity * 8] of their block does
    not wrap, when [ssmem_free] comes to its store
    [fs->set[fs->curr++] = obj], the index [fs->curr] is at least 0,
    strictly less than [fs->size] and inside the pointer array of the block,
    so that the store succeeds; and a head that was full has been replaced
    before the store by a set of fill 0, linked in front of it. *)
Theorem free_store_in_bounds (cfg : config) (w w1 : world)
    (a a1 : ssmem_allocator) :
  reachable cfg (w, a) ->
  1 <= fs_size a ->
  block_fits (fs_size a) ->
  free_prepare w a = Ok (w1, a1) ->
  head_has_room a1 /\
  (forall obj, exists a2, free_store a1 obj = Ok a2) /\
  (forall head rest, free_set_list a = head :: rest ->
     curr head = size head ->
     exists new ts' rest',
       free_set_list a1 = new :: fs_with_ts_set head (Some ts') :: rest' /\
       curr new = 0 /\ size new = fs_size a /\
       (0 < length (set new))%nat).
Proof.
  intros Hr Hcap Hfit Hprep.
  pose proof (reachable_lists_ok _ _ Hr) as Hok. cbn [snd] in Hok.
  destruct (free_prepare_lists_ok _ _ _ _ Hprep Hok) as (_ & Hroom & Hrepl).
  specialize (Hroom Hcap Hfit). split; [exact Hroom|]. split.
  - destruct Hroom as (head & rest & Hl & Hcurr & Hlen).
    intros obj. unfold free_store. rewrite Hl.
    destruct (store_in_bounds (set head) (curr head) obj) as (b' & ->);
      [lia | exact Hlen|].
    cbn. eauto.
  - intros head rest Hl Hfull.
    destruct (Hrepl _ _ Hl Hfull) as (new & ts' & rest' & Hl1 & Hc & Hs).
    exists new, ts', rest'. split; [exact Hl1|]. split; [exact Hc|].
    split; [exact Hs|].
    destruct Hroom as (head1 & rest1 & Hl1' & _ & Hlen).
    rewrite Hl1 in Hl1'. injection Hl1' as <- _. lia.
Qed.

Lemma free_store_in_bounds_witness :
  exists w1 a1 new ts',
    free_prepare (fst after_first_free) (snd after_first_free) = Ok (w1, a1) /\
    free_set_list a1
    = [new; {| ts_set := Some ts'; size := 1; curr := 1; set := [Some 4096] |}] /\
    curr new = 0 /\
    head_has_room a1 /\
    exists a2, free_store a1 4112 = Ok a2.
Proof.
  destruct (free_prepare (fst after_first_free) (snd after_first_free))
    as [[w1 a1]| | |] eqn:E.
  - destruct (free_store_in_bounds example_config (fst after_first_free) w1
                (snd after_first_free) a1) as (Hroom & Hst & Hrepl).
    + exact after_first_free_reachable.
    + vm_compute. discriminate.
    + vm_compute. reflexivity.
    + exact E.
    + destruct (Hrepl _ _ eq_refl eq_refl) as (new & ts' & rest' & Hl & Hc & _).
      pose proof E as E'. vm_compute in E'. injection E' as _ E'.
      rewrite <- E' in Hl. cbn in Hl. injection Hl as Hn Hts Hr.
      exists w1, a1, new, ts'.
      split; [reflexivity|]. split.
      * rewrite <- E'. cbn. rewrite <- Hn, <- Hts. reflexivity.
      * split; [exact Hc|]. split; [exact Hroom|]. exact (Hst 4112).
  - vm_compute in E. discriminate E.
  - vm_compute in E. discriminate E.
  - vm_compute in E. discriminate E.
Defined.

(** ** C2: the snapshot of a free set that accepts writes *)








(** ** C9: free sets of capacity 1 *)




(** ** [free_set_num] counts the free-set list in every reachable state

    This is the hypothesis on the counter under which the number of
    promoted sets is stated above. *)

Lemma reclaim_free_sets_counted w a a1 n :
  reclaim_free_sets w a = Ok (a1, n) -> counted a -> counted a1.
Proof.
  unfold reclaim_free_sets. intros H Hc.
  destruct (free_set_list a) as [|fs_cur [|fs_nxt rest]] eqn:Hl; [discriminate| |].
  - destruct (ts_set fs_cur); injection H as <- <-; exact Hc.
  - destruct (ts_set fs_cur); [|injection H as <- <-; exact Hc].
    destruct (ts_set fs_nxt); [|injection H as <- <-; exact Hc].
    apply bind_Ok in H as ([] & _ & H); injection H as <- <-; [|exact Hc].
    reflexivity.
Qed.

Lemma mem_reclaim_counted w a w1 a1 n :
  ssmem_mem_reclaim w a = Ok (w1, a1, n) -> counted a -> counted a1.
Proof.
  unfold ssmem_mem_reclaim. intros H Hc.
  apply bind_Ok in H as ([w' a'] & Hrel & H).
  apply bind_Ok in H as ([a'' n'] & Hfs & H). injection H as <- <- <-.
  apply (reclaim_free_sets_counted _ _ _ _ Hfs).
  now destruct (reclaim_released_frame _ _ _ _ Hrel) as ((l & m & ->) & _).
Qed.

Lemma alloc_counted cfg chunk w a size w' a' m :
  ssmem_alloc cfg chunk w a size = Ok (w', a', m) -> counted a -> counted a'.
Proof.
  unfold ssmem_alloc, counted. intros H Hc.
  apply bind_Ok in H as ([a1 m1] & Hbody & H).
  apply bind_Ok in H as (w1 & _ & H). injection H as <- <- <-.
  destruct (collected_set_list a) as [|cs cs_next].
  - apply bind_Ok in Hbody as (a2 & Hnew & Hbody). injection Hbody as <- <-. cbn.
    destruct (wrap64 (mem_curr a + size) >=? mem_size a).
    + unfold new_chunk in Hnew. apply bind_Ok in Hnew as (s & _ & Hnew).
      injection Hnew as <-. exact Hc.
    + injection Hnew as <-. exact Hc.
  - apply bind_Ok in Hbody as (v & _ & Hbody).
    destruct (curr cs - 1 <=? 0); injection Hbody as <- <-; exact Hc.
Qed.

Lemma free_counted cfg w a obj w' a' :
  ssmem_free cfg w a obj = Ok (w', a') -> counted a -> counted a'.
Proof.
  unfold ssmem_free. intros H Hc.
  apply bind_Ok in H as ([w1 a1] & Hprep & H).
  apply bind_Ok in H as (a2 & Hst & H).
  apply bind_Ok in H as (w2 & _ & H). injection H as <- <-.
  assert (Hc1 : counted a1).
  { unfold free_prepare in Hprep.
    destruct (free_set_list a) as [|fs rest] eqn:Hl; [discriminate|].
    destruct (_ =? _); [|now injection Hprep as <- <-].
    unfold snapshot_and_reclaim in Hprep.
    apply bind_Ok in Hprep as (ts' & _ & Hprep).
    apply bind_Ok in Hprep as ([[wr ar] n] & Hmr & Hprep).
    apply mem_reclaim_counted in Hmr;
      [|unfold counted in *; cbn; now rewrite Hc, Hl].
    unfold ssmem_free_set_get_avail in Hprep. unfold counted in *.
    destruct (available_set_list ar); injection Hprep as <- <-; cbn;
      rewrite Hmr; unfold wrap64; rewrite Zplus_mod_idemp_l; f_equal; lia. }
  unfold free_store in Hst.
  destruct (free_set_list a1) as [|fs rest] eqn:Hl; [discriminate|].
  apply bind_Ok in Hst as (set' & _ & Hst). injection Hst as <-.
  unfold counted in *. cbn. now rewrite Hc1, Hl.
Qed.

Lemma release_counted cfg w a obj w' a' :
  ssmem_release cfg w a obj = Ok (w', a') -> counted a -> counted a'.
Proof.
  unfold ssmem_release. intros H Hc. apply bind_Ok in H as (ts' & _ & H).
  destruct (_ >=? _); [|now injection H as <- <-].
  apply bind_Ok in H as ([[w1 a2] n] & Hmr & H). injection H as <- <-.
  exact (mem_reclaim_counted _ _ _ _ _ Hmr Hc).
Qed.

Lemma reachable_counted cfg s : reachable cfg s -> counted (snd s).
Proof.
  induction 1 as [chunk slot w size fs id Hfs | s s' _ IH Hstep].
  - unfold ssmem_alloc_init_fs_size.
    now destruct (ssmem_gc_thread_init slot w id).
  - destruct Hstep as
      [chunk w a size w' a' m H | w a obj w' a' H | w a obj w' a' H
      | w a w' a' n H | w a w' H | w a l n]; cbn [snd] in *.
    + exact (alloc_counted _ _ _ _ _ _ _ _ H IH).
    + exact (free_counted _ _ _ _ _ _ H IH).
    + exact (release_counted _ _ _ _ _ _ H IH).
    + exact (mem_reclaim_counted _ _ _ _ _ H IH).
    + exact IH.
    + exact IH.
Qed.

(** ** The fuel of the growth loop

    A [Timeout] of [grow_loop] at [grow_fuel] is a loop that never ends:
    after 64 doublings the 64-bit size is 0 and stays 0. *)

Lemma doubling_step m i :
  wrap64 (Z.shiftl (wrap64 (m * 2 ^ Z.of_nat i)) 1) = wrap64 (m * 2 ^ Z.of_nat (S i)).
Proof.
  unfold wrap64. rewrite Z.shiftl_mul_pow2 by lia.
  rewrite Zmult_mod_idemp_l. f_equal.
  rewrite Nat2Z.inj_succ, Z.pow_succ_r by lia. ring.
Qed.

Lemma grow_loop_timeout_chain cfg size m k : forall i,
  grow_loop cfg k (wrap64 (m * 2 ^ Z.of_nat i)) size = Timeout ->
  forall j, (j < k)%nat ->
    wrap64 (m * 2 ^ Z.of_nat (i + j)) < size /\
    wrap64 (m * 2 ^ Z.of_nat (i + j)) <= SSMEM_MEM_SIZE_MAX cfg.
Proof.
  induction k as [|k IH]; intros i H j Hj; [lia|].
  cbn [grow_loop] in H.
  destruct (Z.ltb_spec (wrap64 (m * 2 ^ Z.of_nat i)) size); [|discriminate].
  destruct (Z.gtb_spec (wrap64 (m * 2 ^ Z.of_nat i)) (SSMEM_MEM_SIZE_MAX cfg));
    [discriminate|].
  destruct j as [|j].
  - rewrite Nat.add_0_r. lia.
  - rewrite doubling_step in H.
    replace (i + S j)%nat with (S i + j)%nat by lia. apply IH; [exact H | lia].
Qed.

Lemma grow_loop_never_ends cfg size m :
  (forall i, wrap64 (m * 2 ^ Z.of_nat i) < size /\
             wrap64 (m * 2 ^ Z.of_nat i) <= SSMEM_MEM_SIZE_MAX cfg) ->
  forall fuel i, grow_loop cfg fuel (wrap64 (m * 2 ^ Z.of_nat i)) size = Timeout.
Proof.
  intros Hall. induction fuel as [|fuel IH]; intros i; [reflexivity|].
  cbn [grow_loop]. destruct (Hall i) as [Hlt Hle].
  destruct (Z.ltb_spec (wrap64 (m * 2 ^ Z.of_nat i)) size); [|lia].
  destruct (Z.gtb_spec (wrap64 (m * 2 ^ Z.of_nat i)) (SSMEM_MEM_SIZE_MAX cfg)); [lia|].
  rewrite doubling_step. apply IH.
Qed.

Lemma grow_fuel_enough cfg m size :
  0 <= m < 2 ^ 64 ->
  grow_loop cfg grow_fuel m size = Timeout ->
  forall fuel, grow_loop cfg fuel m size = Timeout.
Proof.
  intros Hm H fuel.
  assert (Hm0 : wrap64 (m * 2 ^ Z.of_nat 0) = m).
  { cbn. rewrite Z.mul_1_r. now apply wrap64_small. }
  rewrite <- Hm0 in H |- *.
  apply grow_loop_never_ends. intros i.
  destruct (Nat.lt_ge_cases i 65) as [Hi|Hi].
  - apply (grow_loop_timeout_chain cfg size m grow_fuel 0 H i). unfold grow_fuel. lia.
  - assert (Hz : forall n, (64 <= n)%nat -> wrap64 (m * 2 ^ Z.of_nat n) = 0).
    { intros n Hn. unfold wrap64.
      replace (Z.of_nat n) with (Z.of_nat (n - 64) + 64) by lia.
      rewrite Z.pow_add_r by lia. rewrite Z.mul_assoc. apply Z_mod_mult. }
    rewrite (Hz i) by lia. rewrite <- (Hz 64%nat) by lia.
    apply (grow_loop_timeout_chain cfg size m grow_fuel 0 H 64). unfold grow_fuel. lia.
Qed.

(** * Further properties of the code *)

(** ** Registration *)

(** X1: A thread registers at most once: [ssmem_gc_thread_init] called by a
    thread that has already gone through it leaves the registry, its
    length and the thread's node untouched and answers the node of the
    first call, whatever id the second call brings. *)
Theorem gc_thread_init_once (slot slot' : Z) (w : world) (id id' : Z) :
  let '(w1, p1) := ssmem_gc_thread_init slot w id in
  ssmem_gc_thread_init slot' w1 id' = (w1, p1).
Proof.
  unfold ssmem_gc_thread_init.
  destruct (ssmem_ts_local w) as [p|] eqn:E; cbn; [now rewrite E | reflexivity].
Qed.

(** ** The snapshot of a well-formed registry *)

Lemma ts_set_collect_walk_records len cur : forall b,
  Forall (fun s => 0 <= id s < len /\ (Z.to_nat (id s) < length b)%nat) cur ->
  NoDup (List.map id cur) ->
  exists b',
    ts_set_collect_walk len cur b = Ok b' /\
    length b' = length b /\
    (forall s, s ∈ cur -> entry b' (id s) (version s)) /\
    (forall i, (forall s, s ∈ cur -> Z.to_nat (id s) <> i) -> b' !! i = b !! i).
Proof.
  induction cur as [|s cur IH]; intros b Hall Hnd.
  - exists b. split; [reflexivity|]. split; [reflexivity|].
    split; [|reflexivity]. intros x Hx. inversion Hx.
  - inversion Hall as [|? ? [Hid Hlen] Hrest]; subst.
    inversion Hnd as [|? ? Hnotin Hnd']; subst.
    cbn [ts_set_collect_walk].
    destruct (Z.ltb_spec (id s) len); [|lia].
    unfold store. destruct (Z.ltb_spec (id s) 0); [lia|].
    destruct (Nat.ltb_spec (Z.to_nat (id s)) (length b)); [|lia].
    cbn [mbind res_bind rbind].
    destruct (IH (<[Z.to_nat (id s) := Some (version s)]> b))
      as (b' & Hb' & Hlen' & Hin & Hout).
    { rewrite length_insert. exact Hrest. }
    { exact Hnd'. }
    exists b'. split; [exact Hb'|]. split; [now rewrite Hlen', length_insert|].
    split.
    + intros s' Hs'. apply elem_of_cons in Hs' as [->|Hs']; [|now apply Hin].
      split; [lia|]. rewrite Hout.
      * now apply list_lookup_insert_eq.
      * intros s' Hs' Heq. apply Hnotin. apply list_elem_of_In.
        apply in_map_iff. exists s'. split; [|now apply list_elem_of_In].
        inversion Hall as [|? ? _ Hr]; subst.
        rewrite Forall_forall in Hrest. destruct (Hrest s' Hs') as [Hs'id _]. lia.
    + intros i Hi. rewrite Hout.
      * apply list_lookup_insert_ne. apply Hi. now left.
      * intros s' Hs'. apply Hi. now right.
Qed.

(** X2: When every node of the registry has its id below the length and no
    two nodes share an id, [ssmem_ts_set_collect] returns a snapshot in
    which the word at the id of each node is the version of that node; a
    null [ts_set] gives a snapshot of [ssmem_ts_list_len] words, a given
    one (holding at least that many words) is filled in place. *)
Theorem ts_set_collect_records_all (w : world) (ts_set : option buffer) :
  ids_in_range w -> ids_distinct w ->
  match ts_set with
  | Some b => (Z.to_nat (ssmem_ts_list_len w) <= length b)%nat
  | None => True
  end ->
  exists b',
    ssmem_ts_set_collect w ts_set = Ok b' /\
    length b' = match ts_set with
                | Some b => length b
                | None => Z.to_nat (ssmem_ts_list_len w)
                end /\
    forall s, s ∈ ssmem_ts_list w -> entry b' (id s) (version s).
Proof.
  intros Hrange Hnd Hbuf. unfold ssmem_ts_set_collect.
  set (b := match ts_set with
            | Some b => b
            | None => malloc_words (ssmem_ts_list_len w)
            end).
  assert (Hlen : (Z.to_nat (ssmem_ts_list_len w) <= length b)%nat).
  { subst b. destruct ts_set; [exact Hbuf|].
    unfold malloc_words. now rewrite length_replicate. }
  destruct (ts_set_collect_walk_records (ssmem_ts_list_len w) (ssmem_ts_list w) b)
    as (b' & Hb' & Hlen' & Hin & _).
  { eapply Forall_impl; [exact Hrange|]. cbn. intros s Hs. split; [exact Hs | lia]. }
  { exact Hnd. }
  exists b'. split; [exact Hb'|]. split; [|exact Hin].
  rewrite Hlen'. subst b. destruct ts_set; [reflexivity|].
  unfold malloc_words. now rewrite length_replicate.
Qed.

Lemma ts_set_collect_records_all_witness :
  ssmem_ts_set_collect (three_threads 7 8 9) None = Ok [Some 7; Some 8; Some 9].
Proof.
  destruct (ts_set_collect_records_all (three_threads 7 8 9) None)
    as (b' & Hb' & Hlen & Hin).
  - repeat constructor; cbn; lia.
  - repeat constructor; cbn; rewrite ?elem_of_cons, ?elem_of_nil; intuition lia.
  - exact I.
  - rewrite Hb'. vm_compute in Hb'. exact (eq_sym Hb').
Defined.

(** X3: A snapshot buffer that is given is never reallocated: when the walk
    comes to a node whose id is below the registry length but not below
    the length of the buffer (the registry has grown since the buffer was
    allocated), the store is out of bounds. *)
Theorem ts_set_collect_short_buffer (w : world) (b : buffer)
    (pre post : list ssmem_ts) (s : ssmem_ts) :
  ssmem_ts_list w = pre ++ s :: post ->
  Forall (fun x => 0 <= id x < ssmem_ts_list_len w /\
                   (Z.to_nat (id x) < length b)%nat) pre ->
  0 <= id s < ssmem_ts_list_len w ->
  (length b <= Z.to_nat (id s))%nat ->
  ssmem_ts_set_collect w (Some b) = Undefined.
Proof.
  intros Hl Hpre Hs Hshort. unfold ssmem_ts_set_collect. rewrite Hl.
  clear Hl. revert b Hpre Hshort.
  induction pre as [|p pre IH]; intros b Hpre Hshort; cbn [app ts_set_collect_walk].
  - destruct (Z.ltb_spec (id s) (ssmem_ts_list_len w)); [|lia].
    unfold store. destruct (Z.ltb_spec (id s) 0); [lia|].
    destruct (Nat.ltb_spec (Z.to_nat (id s)) (length b)); [lia | reflexivity].
  - inversion Hpre as [|? ? [Hid Hlen] Hrest]; subst.
    destruct (Z.ltb_spec (id p) (ssmem_ts_list_len w)); [|lia].
    unfold store. destruct (Z.ltb_spec (id p) 0); [lia|].
    destruct (Nat.ltb_spec (Z.to_nat (id p)) (length b)); [|lia].
    cbn [mbind res_bind rbind]. apply IH.
    + eapply Forall_impl; [exact Hrest|]. cbn. intros x Hx. now rewrite length_insert.
    + now rewrite length_insert.
Qed.

Lemma ts_set_collect_short_buffer_witness :
  ssmem_ts_set_collect (three_threads 7 8 9) (Some [Some 1; Some 1]) = Undefined.
Proof.
  apply (ts_set_collect_short_buffer (three_threads 7 8 9) [Some 1; Some 1]
           [] [ {| ts_addr := 128; id := 1; version := 8 |};
                {| ts_addr := 64; id := 0; version := 7 |} ]
           {| ts_addr := 192; id := 2; version := 9 |}).
  - reflexivity.
  - constructor.
  - cbn. lia.
  - cbn. lia.
Defined.

(** ** What the comparison of two snapshots detects *)

Lemma entry_unique b t x y : entry b t x -> entry b t y -> x = y.
Proof. intros [_ Hx] [_ Hy]. congruence. Qed.

Lemma ts_compare_from_total n : forall i s_new s_old,
  0 <= i ->
  (forall t, i <= t < i + Z.of_nat n ->
     exists x y, entry s_new t x /\ entry s_old t y) ->
  exists r, ts_compare_from n i s_new s_old = Ok r.
Proof.
  induction n as [|n IH]; intros i s_new s_old Hi H; [now exists true|].
  destruct (H i) as (x & y & Hx & Hy); [lia|].
  cbn [ts_compare_from]. rewrite (load_entry _ _ _ Hx). cbn.
  rewrite (load_entry _ _ _ Hy). cbn.
  destruct (x <=? y); [now exists false|].
  apply IH; [lia|]. intros t Ht. apply H. lia.
Qed.

Lemma collect_fresh_entries w b :
  ids_in_range w -> ids_distinct w ->
  ssmem_ts_set_collect w None = Ok b ->
  forall s, s ∈ ssmem_ts_list w -> entry b (id s) (version s).
Proof.
  intros Hrange Hnd Hb. unfold ssmem_ts_set_collect in Hb.
  destruct (ts_set_collect_walk_records (ssmem_ts_list_len w) (ssmem_ts_list w)
              (malloc_words (ssmem_ts_list_len w))) as (b' & Hb' & _ & Hin & _).
  - eapply Forall_impl; [exact Hrange|]. cbn. intros s Hs. split; [exact Hs|].
    unfold malloc_words. rewrite length_replicate. lia.
  - exact Hnd.
  - rewrite Hb in Hb'. injection Hb' as <-. exact Hin.
Qed.

(** X4: Two snapshots of a registry of the same length, whose ids are below the
    length, distinct and cover every index: the comparison of the later
    with the earlier always has a result, and it answers 1 exactly when
    every thread is at a strictly later version in the later snapshot.  A
    single thread that has not advanced keeps the answer at 0. *)
Theorem newer_iff_all_advanced (w w' : world) (b b' : buffer) :
  ssmem_ts_list_len w' = ssmem_ts_list_len w ->
  ids_in_range w -> ids_distinct w -> ids_dense w ->
  ids_in_range w' -> ids_distinct w' -> ids_dense w' ->
  ssmem_ts_set_collect w None = Ok b ->
  ssmem_ts_set_collect w' None = Ok b' ->
  exists r, ssmem_ts_compare w' b' b = Ok r /\
            (r = true <-> all_advanced w w').
Proof.
  intros Hlen Hr Hd Hdense Hr' Hd' Hdense' Hb Hb'.
  pose proof (collect_fresh_entries w b Hr Hd Hb) as Hin.
  pose proof (collect_fresh_entries w' b' Hr' Hd' Hb') as Hin'.
  assert (Hread : forall t, 0 <= t < ssmem_ts_list_len w' ->
            exists s s', s ∈ ssmem_ts_list w /\ s' ∈ ssmem_ts_list w' /\
              id s = t /\ id s' = t /\
              entry b' t (version s') /\ entry b t (version s)).
  { intros t Ht. destruct (Hdense' t Ht) as (s' & Hs' & Hid').
    rewrite Hlen in Ht. destruct (Hdense t Ht) as (s & Hs & Hid).
    exists s, s'. split; [exact Hs|]. split; [exact Hs'|].
    split; [exact Hid|]. split; [exact Hid'|].
    split; [rewrite <- Hid'; now apply Hin' | rewrite <- Hid; now apply Hin]. }
  destruct (ts_compare_from_total (Z.to_nat (ssmem_ts_list_len w')) 0 b' b)
    as (r & Hcmp); [lia| |].
  { intros t Ht. destruct (Hread t) as (s & s' & _ & _ & _ & _ & Hx & Hy); [lia|].
    eauto. }
  exists r. split; [exact Hcmp|].
  pose proof (ts_compare_inv w' b' b r Hcmp) as Hinv. split.
  - intros ->. intros s s' Hs Hs' Hid.
    unfold ids_in_range in Hr'. rewrite Forall_forall in Hr'.
    pose proof (Hr' s' Hs') as Hrange.
    destruct (Hinv (id s')) as (x & y & Hx & Hy & Hxy); [exact Hrange|].
    rewrite (entry_unique _ _ _ _ Hx (Hin' s' Hs')) in Hxy.
    rewrite Hid in Hy.
    rewrite (entry_unique _ _ _ _ Hy (Hin s Hs)) in Hxy. lia.
  - intros Hadv. destruct r; [reflexivity|].
    destruct Hinv as (t & Ht & _ & x & y & Hx & Hy & Hxy).
    destruct (Hread t Ht) as (s & s' & Hs & Hs' & Hid & Hid' & Hx' & Hy').
    rewrite (entry_unique _ _ _ _ Hx Hx') in Hxy.
    rewrite (entry_unique _ _ _ _ Hy Hy') in Hxy.
    assert (version s < version s') by (apply Hadv; auto; congruence). lia.
Qed.

Lemma three_threads_well_formed v0 v1 v2 :
  ids_in_range (three_threads v0 v1 v2) /\
  ids_distinct (three_threads v0 v1 v2) /\
  ids_dense (three_threads v0 v1 v2).
Proof.
  split; [|split].
  - repeat constructor; cbn; lia.
  - repeat constructor; cbn; rewrite ?elem_of_cons, ?elem_of_nil; intuition lia.
  - intros t Ht. cbn in Ht.
    assert (t = 0 \/ t = 1 \/ t = 2) as [-> | [-> | ->]] by lia.
    + exists {| ts_addr := 64; id := 0; version := v0 |}.
      split; [|reflexivity]. cbn. rewrite !elem_of_cons. auto.
    + exists {| ts_addr := 128; id := 1; version := v1 |}.
      split; [|reflexivity]. cbn. rewrite !elem_of_cons. auto.
    + exists {| ts_addr := 192; id := 2; version := v2 |}.
      split; [|reflexivity]. cbn. rewrite !elem_of_cons. auto.
Qed.

Lemma newer_iff_all_advanced_witness :
  exists r,
    ssmem_ts_compare (three_threads 8 8 9) [Some 8; Some 8; Some 9]
      [Some 7; Some 8; Some 8] = Ok r /\
    (r = true <-> all_advanced (three_threads 7 8 8) (three_threads 8 8 9)).
Proof.
  destruct (three_threads_well_formed 7 8 8) as (H1 & H2 & H3).
  destruct (three_threads_well_formed 8 8 9) as (H1' & H2' & H3').
  exact (newer_iff_all_advanced (three_threads 7 8 8) (three_threads 8 8 9)
           [Some 7; Some 8; Some 8] [Some 8; Some 8; Some 9]
           eq_refl H1 H2 H3 H1' H2' H3' eq_refl eq_refl).
Defined.

(** X5: The comparison is transitive: a snapshot newer than a second one that
    is newer than a third one is newer than the third.  This is what lets
    the pass compare the head free set with its successor only. *)
Theorem ts_compare_transitive (w : world) (s_1 s_2 s_3 : buffer) :
  ssmem_ts_compare w s_1 s_2 = Ok true ->
  ssmem_ts_compare w s_2 s_3 = Ok true ->
  ssmem_ts_compare w s_1 s_3 = Ok true.
Proof.
  intros H12 H23.
  pose proof (ts_compare_inv _ _ _ _ H12) as N12.
  pose proof (ts_compare_inv _ _ _ _ H23) as N23.
  apply ts_compare_true. intros t Ht.
  destruct (N12 t Ht) as (x & y & Hx & Hy & Hxy).
  destruct (N23 t Ht) as (y' & z & Hy' & Hz & Hyz).
  rewrite (entry_unique _ _ _ _ Hy' Hy) in Hyz.
  exists x, z. repeat split; try apply Hx; try apply Hz. lia.
Qed.

Lemma ts_compare_transitive_witness :
  ssmem_ts_compare (registry_of_len 2) [Some 5; Some 4] [Some 1; Some 0] = Ok true.
Proof.
  apply (ts_compare_transitive (registry_of_len 2) _ [Some 3; Some 1] _);
    vm_compute; reflexivity.
Defined.

(** ** [ssmem_ts_compare_3] *)

Lemma ts_compare_3_from_true n : forall i s_1 s_2 s_3,
  0 <= i ->
  ts_compare_3_from n i s_1 s_2 s_3 = Ok true <->
  ts_compare_from n i s_1 s_2 = Ok true /\ ts_compare_from n i s_2 s_3 = Ok true.
Proof.
  induction n as [|n IH]; intros i s_1 s_2 s_3 Hi; [cbn; tauto|].
  cbn [ts_compare_3_from ts_compare_from].
  destruct (load s_1 i) as [x| | |]; cbn; try (split; [discriminate | intros [? _]; discriminate]).
  destruct (load s_2 i) as [y| | |]; cbn; try (split; [discriminate | intros [? _]; discriminate]).
  destruct (x <=? y); [split; [discriminate | intros [? _]; discriminate]|].
  destruct (load s_3 i) as [z| | |]; cbn; try (split; [discriminate | intros [_ ?]; discriminate]).
  destruct (y <=? z); [split; [discriminate | intros [_ ?]; discriminate]|].
  apply IH. lia.
Qed.

(** X6: [ssmem_ts_compare_3] answers 1 exactly when [ssmem_ts_compare] answers
    1 on the first and second snapshots and on the second and third. *)
Theorem ts_compare_3_is_two_comparisons (w : world) (s_1 s_2 s_3 : buffer) :
  ssmem_ts_compare_3 w s_1 s_2 s_3 = Ok true <->
  ssmem_ts_compare w s_1 s_2 = Ok true /\ ssmem_ts_compare w s_2 s_3 = Ok true.
Proof.
  unfold ssmem_ts_compare_3, ssmem_ts_compare. apply ts_compare_3_from_true. lia.
Qed.

(** ** The arena *)

Lemma wrap64_range z : 0 <= wrap64 z < 2 ^ 64.
Proof. unfold wrap64. apply Z.mod_pos_bound. lia. Qed.

Lemma wrap64_le z : 0 <= z -> wrap64 z <= z.
Proof. intros H. unfold wrap64. apply Z.mod_le; lia. Qed.

Lemma grow_loop_Ok cfg fuel : forall m size m',
  0 <= m ->
  grow_loop cfg fuel m size = Ok m' ->
  size <= m' /\ (m' = m \/ 0 <= m' <= 2 * SSMEM_MEM_SIZE_MAX cfg).
Proof.
  induction fuel as [|fuel IH]; intros m size m' Hm H; [discriminate|].
  cbn [grow_loop] in H.
  destruct (Z.ltb_spec m size).
  - destruct (Z.gtb_spec m (SSMEM_MEM_SIZE_MAX cfg)); [discriminate|].
    apply IH in H; [|apply wrap64_range].
    destruct H as (Hsize & [-> | Hb]); (split; [exact Hsize|]); right; [|exact Hb].
    split; [apply wrap64_range|].
    rewrite Z.shiftl_mul_pow2 by lia.
    pose proof (wrap64_le (m * 2 ^ 1)). lia.
  - injection H as <-. split; [lia | now left].
Qed.

(** X7: The size of a new chunk: when [ssmem_alloc] takes a new chunk and
    returns, the chunk is at least as large as the request and at most as
    large as the larger of the former chunk size and twice
    [SSMEM_MEM_SIZE_MAX]; it is pushed on the chunk list and counted in
    [tot_size].  A chunk may thus exceed the cap, by a factor below 2. *)
Theorem new_chunk_size_bounds (cfg : config) (chunk : Z) (a a1 : ssmem_allocator)
    (size : Z) :
  0 <= mem_size a -> 0 <= SSMEM_MEM_SIZE_MAX cfg ->
  new_chunk cfg chunk a size = Ok a1 ->
  size <= mem_size a1 /\
  mem_size a1 <= Z.max (mem_size a) (2 * SSMEM_MEM_SIZE_MAX cfg) /\
  tot_size a1 = wrap64 (tot_size a + mem_size a1) /\
  mem_chunks a1 = chunk :: mem_chunks a /\
  mem a1 = chunk /\ mem_curr a1 = 0.
Proof.
  intros Hm Hmax H. unfold new_chunk in H.
  set (m1 := if SSMEM_MEM_SIZE_DOUBLE cfg
             then if wrap64 (Z.shiftl (mem_size a) 1) >? SSMEM_MEM_SIZE_MAX cfg
                  then SSMEM_MEM_SIZE_MAX cfg
                  else wrap64 (Z.shiftl (mem_size a) 1)
             else mem_size a) in *.
  assert (Hm1 : 0 <= m1 <= Z.max (mem_size a) (SSMEM_MEM_SIZE_MAX cfg)).
  { subst m1. destruct (SSMEM_MEM_SIZE_DOUBLE cfg); [|lia].
    pose proof (wrap64_range (Z.shiftl (mem_size a) 1)).
    destruct (Z.gtb_spec (wrap64 (Z.shiftl (mem_size a) 1)) (SSMEM_MEM_SIZE_MAX cfg)); lia. }
  apply bind_Ok in H as (m2 & Hm2 & H). injection H as <-. cbn.
  assert (size <= m2 /\ m2 <= Z.max (mem_size a) (2 * SSMEM_MEM_SIZE_MAX cfg)) as [? ?].
  { destruct (Z.gtb_spec size m1).
    - apply grow_loop_Ok in Hm2; [|lia]. lia.
    - injection Hm2 as <-. lia. }
  split; [assumption|]. split; [assumption|]. auto.
Qed.

Lemma new_chunk_size_bounds_witness :
  exists a1, new_chunk doubling_config 8192 nearly_full 600 = Ok a1 /\
             mem_size a1 = 1024 /\ mem_chunks a1 = [8192; 4096].
Proof.
  destruct (new_chunk doubling_config 8192 nearly_full 600) as [a1| | |] eqn:E.
  - destruct (new_chunk_size_bounds doubling_config 8192 nearly_full a1 600)
      as (_ & _ & _ & Hc & _); [cbn; lia | cbn; lia | exact E |].
    exists a1. split; [reflexivity|]. split; [|exact Hc].
    vm_compute in E. injection E as <-. reflexivity.
  - vm_compute in E. discriminate E.
  - vm_compute in E. discriminate E.
  - vm_compute in E. discriminate E.
Defined.

Lemma grow_loop_aborts cfg size fuel : forall m,
  0 < m -> m < size ->
  2 * SSMEM_MEM_SIZE_MAX cfg < size ->
  SSMEM_MEM_SIZE_MAX cfg < 2 ^ 63 ->
  SSMEM_MEM_SIZE_MAX cfg < m * 2 ^ (Z.of_nat fuel - 1) ->
  (0 < fuel)%nat ->
  grow_loop cfg fuel m size = Abort.
Proof.
  induction fuel as [|fuel IH]; intros m Hm Hlt Hbig Hmax Hpow Hfuel; [lia|].
  cbn [grow_loop].
  destruct (Z.ltb_spec m size); [|lia].
  destruct (Z.gtb_spec m (SSMEM_MEM_SIZE_MAX cfg)); [reflexivity|].
  rewrite Z.shiftl_mul_pow2 by lia. rewrite wrap64_small by lia.
  destruct fuel as [|fuel'].
  - cbn in Hpow. lia.
  - apply IH; try lia.
    replace (Z.of_nat (S (S fuel')) - 1) with (Z.succ (Z.of_nat (S fuel') - 1)) in Hpow by lia.
    rewrite Z.pow_succ_r in Hpow by lia. lia.
Qed.

(** X8: A request above twice [SSMEM_MEM_SIZE_MAX] that does not fit the
    current chunk makes [ssmem_alloc] fail its assertion on the chunk
    size, whatever the doubling policy: no chunk is allocated. *)
Theorem alloc_above_twice_max_aborts (cfg : config) (chunk : Z) (w : world)
    (a : ssmem_allocator) (size : Z) :
  collected_set_list a = [] ->
  0 < mem_size a < 2 ^ 63 ->
  0 < SSMEM_MEM_SIZE_MAX cfg < 2 ^ 63 ->
  0 <= mem_curr a -> mem_curr a + size < 2 ^ 64 ->
  mem_size a < size -> 2 * SSMEM_MEM_SIZE_MAX cfg < size ->
  ssmem_alloc cfg chunk w a size = Abort.
Proof.
  intros Hc Hm Hmax Hcur Hno Hsz Hbig.
  rewrite (alloc_from_arena cfg chunk w a size Hc).
  rewrite wrap64_small by lia.
  destruct (Z.geb_spec (mem_curr a + size) (mem_size a)); [|lia].
  unfold new_chunk.
  set (m1 := if SSMEM_MEM_SIZE_DOUBLE cfg
             then if wrap64 (Z.shiftl (mem_size a) 1) >? SSMEM_MEM_SIZE_MAX cfg
                  then SSMEM_MEM_SIZE_MAX cfg
                  else wrap64 (Z.shiftl (mem_size a) 1)
             else mem_size a).
  assert (Hm1 : 0 < m1 /\ m1 < size).
  { subst m1. destruct (SSMEM_MEM_SIZE_DOUBLE cfg); [|lia].
    rewrite Z.shiftl_mul_pow2 by lia. rewrite wrap64_small by lia.
    destruct (Z.gtb_spec (mem_size a * 2 ^ 1) (SSMEM_MEM_SIZE_MAX cfg)); lia. }
  destruct (Z.gtb_spec size m1); [|lia].
  rewrite (grow_loop_aborts cfg size grow_fuel m1); try lia; [reflexivity| |].
  - unfold grow_fuel. change (Z.of_nat 66 - 1) with 65.
    assert (2 ^ 63 < 2 ^ 65) by (apply Z.pow_lt_mono_r; lia). nia.
  - unfold grow_fuel. lia.
Qed.

Lemma alloc_above_twice_max_aborts_witness :
  ssmem_alloc doubling_config 8192 (one_thread 0) nearly_full 8193 = Abort.
Proof.
  apply alloc_above_twice_max_aborts; cbn; try lia. reflexivity.
Defined.

Lemma grow_loop_exit cfg fuel : forall m size m',
  grow_loop cfg fuel m size = Ok m' -> size <= m'.
Proof.
  induction fuel as [|fuel IH]; intros m size m' H; [discriminate|].
  cbn [grow_loop] in H. destruct (Z.ltb_spec m size).
  - destruct (m >? SSMEM_MEM_SIZE_MAX cfg); [discriminate|]. exact (IH _ _ _ H).
  - injection H as <-. lia.
Qed.

Lemma new_chunk_fits cfg chunk a size a1 :
  new_chunk cfg chunk a size = Ok a1 -> size <= mem_size a1.
Proof.
  intros H. unfold new_chunk in H.
  apply bind_Ok in H as (m2 & Hm2 & H). injection H as <-. cbn.
  match type of Hm2 with
  | (if size >? ?m then _ else _) = _ => destruct (Z.gtb_spec size m)
  end.
  - exact (grow_loop_exit _ _ _ _ _ Hm2).
  - injection Hm2 as <-. lia.
Qed.

(** ** C6: the size of the new chunk and whether the call returns *)

Lemma new_chunk_unfold cfg chunk a size :
  new_chunk cfg chunk a size =
    mem_size2 ← (if size >? mem_size_doubled cfg a
                 then grow_loop cfg grow_fuel (mem_size_doubled cfg a) size
                 else Ok (mem_size_doubled cfg a));
    Ok (with_arena a chunk 0 mem_size2 (wrap64 (tot_size a + mem_size2))
          (chunk :: mem_chunks a)).
Proof. reflexivity. Qed.

Lemma mem_size_doubled_range cfg a :
  0 <= mem_size a < 2 ^ 64 -> 0 <= SSMEM_MEM_SIZE_MAX cfg < 2 ^ 64 ->
  0 <= mem_size_doubled cfg a < 2 ^ 64.
Proof.
  intros Hm Hmax. unfold mem_size_doubled.
  destruct (SSMEM_MEM_SIZE_DOUBLE cfg); [|exact Hm].
  destruct (_ >? _); [exact Hmax|].
  unfold wrap64. apply Z.mod_pos_bound. lia.
Qed.

Lemma wrap64_pow_zero m n : (64 <= n)%nat -> wrap64 (m * 2 ^ Z.of_nat n) = 0.
Proof.
  intros Hn. unfold wrap64.
  replace (Z.of_nat n) with (Z.of_nat (n - 64) + 64) by lia.
  rewrite Z.pow_add_r by lia. rewrite Z.mul_assoc. apply Z_mod_mult.
Qed.

(** [k] turns of the growth loop, none of which leaves it. *)
Lemma grow_loop_steps cfg size m : forall k fuel i,
  (forall j, (j < k)%nat ->
     wrap64 (m * 2 ^ Z.of_nat (i + j)) < size /\
     wrap64 (m * 2 ^ Z.of_nat (i + j)) <= SSMEM_MEM_SIZE_MAX cfg) ->
  grow_loop cfg (k + fuel) (wrap64 (m * 2 ^ Z.of_nat i)) size
  = grow_loop cfg fuel (wrap64 (m * 2 ^ Z.of_nat (i + k))) size.
Proof.
  induction k as [|k IH]; intros fuel i H.
  - now rewrite Nat.add_0_r.
  - cbn [Nat.add grow_loop].
    destruct (H 0%nat) as [Hlt Hle]; [lia|]. rewrite Nat.add_0_r in Hlt, Hle.
    destruct (Z.ltb_spec (wrap64 (m * 2 ^ Z.of_nat i)) size); [|lia].
    destruct (Z.gtb_spec (wrap64 (m * 2 ^ Z.of_nat i)) (SSMEM_MEM_SIZE_MAX cfg));
      [lia|].
    rewrite doubling_step, IH.
    + now replace (S i + k)%nat with (i + S k)%nat by lia.
    + intros j Hj. replace (S i + j)%nat with (i + S j)%nat by lia.
      apply H. lia.
Qed.

Lemma first_failure (P : nat -> Prop) (Pdec : forall j, {P j} + {~ P j}) n :
  (exists k, (k < n)%nat /\ (forall j, (j < k)%nat -> P j) /\ ~ P k) \/
  (forall j, (j < n)%nat -> P j).
Proof.
  induction n as [|n IH]; [right; intros j Hj; lia|].
  destruct IH as [(k & Hk & Hbelow & Hfail)|Hall].
  - left. exists k. split; [lia|]. auto.
  - destruct (Pdec n) as [Hn|Hn].
    + right. intros j Hj. destruct (Nat.eq_dec j n) as [->|]; [exact Hn|].
      apply Hall. lia.
    + left. exists n. split; [lia|]. auto.
Qed.

(** The doubled sizes either come to a first one that holds the request
    or exceeds the maximum, or stay below both for ever. *)
Lemma doubled_sizes_cases (max size m : Z) :
  (exists k,
     (forall j, (j < k)%nat ->
        wrap64 (m * 2 ^ Z.of_nat j) < size /\
        wrap64 (m * 2 ^ Z.of_nat j) <= max) /\
     (size <= wrap64 (m * 2 ^ Z.of_nat k) \/
      (wrap64 (m * 2 ^ Z.of_nat k) < size /\
       max < wrap64 (m * 2 ^ Z.of_nat k)))) \/
  (forall i, wrap64 (m * 2 ^ Z.of_nat i) < size /\
             wrap64 (m * 2 ^ Z.of_nat i) <= max).
Proof.
  set (P := fun j : nat => wrap64 (m * 2 ^ Z.of_nat j) < size /\
                           wrap64 (m * 2 ^ Z.of_nat j) <= max).
  assert (Pdec : forall j, {P j} + {~ P j}).
  { intros j. unfold P.
    destruct (Z_lt_dec (wrap64 (m * 2 ^ Z.of_nat j)) size);
      destruct (Z_le_dec (wrap64 (m * 2 ^ Z.of_nat j)) max);
      (left; lia) || (right; lia). }
  destruct (first_failure P Pdec 65) as [(k & _ & Hbelow & Hfail)|Hall].
  - left. exists k. split; [exact Hbelow|]. unfold P in Hfail. lia.
  - right. intros i. destruct (Nat.lt_ge_cases i 65) as [Hi|Hi].
    + exact (Hall i Hi).
    + rewrite (wrap64_pow_zero m i) by lia.
      rewrite <- (wrap64_pow_zero m 64) by lia. apply (Hall 64%nat). lia.
Qed.

(** The growth loop from [m]: it leaves with the first doubled size that
    holds the request, aborts at the first one above the maximum that does
    not, and turns for ever when there is neither. *)
Lemma grow_loop_outcome cfg size m :
  0 <= m < 2 ^ 64 -> 0 <= SSMEM_MEM_SIZE_MAX cfg -> m < size ->
  (forall k,
     (forall j, (j < k)%nat ->
        wrap64 (m * 2 ^ Z.of_nat j) < size /\
        wrap64 (m * 2 ^ Z.of_nat j) <= SSMEM_MEM_SIZE_MAX cfg) ->
     (size <= wrap64 (m * 2 ^ Z.of_nat k) ->
      grow_loop cfg grow_fuel m size = Ok (wrap64 (m * 2 ^ Z.of_nat k))) /\
     (wrap64 (m * 2 ^ Z.of_nat k) < size ->
      SSMEM_MEM_SIZE_MAX cfg < wrap64 (m * 2 ^ Z.of_nat k) ->
      grow_loop cfg grow_fuel m size = Abort)) /\
  ((forall i, wrap64 (m * 2 ^ Z.of_nat i) < size /\
              wrap64 (m * 2 ^ Z.of_nat i) <= SSMEM_MEM_SIZE_MAX cfg) ->
   forall fuel, grow_loop cfg fuel m size = Timeout).
Proof.
  intros Hm Hmax Hlt.
  assert (Hm0 : wrap64 (m * 2 ^ Z.of_nat 0) = m).
  { cbn. rewrite Z.mul_1_r. now apply wrap64_small. }
  split.
  - intros k Hbelow.
    assert (Hk : (64 <= k)%nat ->
                 wrap64 (m * 2 ^ Z.of_nat k) < size /\
                 wrap64 (m * 2 ^ Z.of_nat k) <= SSMEM_MEM_SIZE_MAX cfg).
    { intros Hge. rewrite wrap64_pow_zero by exact Hge. lia. }
    assert (Hrun : (k < 64)%nat ->
                   grow_loop cfg grow_fuel m size
                   = grow_loop cfg (grow_fuel - k)
                       (wrap64 (m * 2 ^ Z.of_nat k)) size).
    { intros Hk64. rewrite <- Hm0 at 1.
      replace grow_fuel with (k + (grow_fuel - k))%nat at 1
        by (unfold grow_fuel; lia).
      rewrite (grow_loop_steps cfg size m k (grow_fuel - k) 0); [reflexivity|].
      intros j Hj. cbn [Nat.add]. now apply Hbelow. }
    assert (Hfuel : (k < 64)%nat -> exists f, (grow_fuel - k)%nat = S f).
    { intros Hk64. exists (grow_fuel - k - 1)%nat. unfold grow_fuel. lia. }
    split.
    + intros Hfits.
      destruct (Nat.lt_ge_cases k 64) as [Hk64|Hk64]; [|destruct (Hk Hk64); lia].
      rewrite (Hrun Hk64). destruct (Hfuel Hk64) as (f & ->). cbn [grow_loop].
      destruct (Z.ltb_spec (wrap64 (m * 2 ^ Z.of_nat k)) size); [lia|].
      reflexivity.
    + intros Hsmall Hover.
      destruct (Nat.lt_ge_cases k 64) as [Hk64|Hk64]; [|destruct (Hk Hk64); lia].
      rewrite (Hrun Hk64). destruct (Hfuel Hk64) as (f & ->). cbn [grow_loop].
      destruct (Z.ltb_spec (wrap64 (m * 2 ^ Z.of_nat k)) size); [|lia].
      destruct (Z.gtb_spec (wrap64 (m * 2 ^ Z.of_nat k))
                  (SSMEM_MEM_SIZE_MAX cfg)); [reflexivity | lia].
  - intros Hall fuel. rewrite <- Hm0. now apply grow_loop_never_ends.
Qed.

(** C6, amended: with no collected set, [ssmem_alloc] asks for a new chunk
    exactly when [mem_curr + size >= mem_size] (in [size_t] arithmetic),
    the exact fit included.  When [mem_curr + size < mem_size] the pointer
    is [mem + mem_curr], the cursor advances by [size] and the chunk list
    is unchanged.  When [mem_curr + size >= mem_size], let [m1] be
    [mem_size], or with [SSMEM_MEM_SIZE_DOUBLE] its double capped at
    [SSMEM_MEM_SIZE_MAX].  If [size <= m1] a chunk of [m1] bytes is pushed
    on the chunk list and its base returned, the cursor being [size].  If
    [size > m1] the size is doubled from [m1] on: the call takes a chunk
    of the first doubled size that holds [size], provided no smaller one
    exceeds the maximum; it aborts at the first doubled size that is
    below [size] and above the maximum; and it never returns when every
    doubled size is below [size] and not above the maximum (the sizes
    wrap to 0); one of the three is the case.  A call that returns has
    pushed the new chunk, which holds [size] bytes. *)
Theorem alloc_new_chunk_iff (cfg : config) (chunk : Z) (w : world)
    (a : ssmem_allocator) (size : Z) :
  collected_set_list a = [] ->
  0 <= mem_size a < 2 ^ 64 ->
  0 <= SSMEM_MEM_SIZE_MAX cfg < 2 ^ 64 ->
  let m1 := mem_size_doubled cfg a in
  let taken := fun m2 =>
    w' ← ts_next_on_alloc cfg w;
    Ok (w', with_arena a chunk (wrap64 size) m2 (wrap64 (tot_size a + m2))
              (chunk :: mem_chunks a),
        wrap64 chunk) in
  (wrap64 (mem_curr a + size) < mem_size a ->
     ssmem_alloc cfg chunk w a size =
       w' ← ts_next_on_alloc cfg w;
       Ok (w', with_arena a (mem a) (wrap64 (mem_curr a + size)) (mem_size a)
                 (tot_size a) (mem_chunks a),
           wrap64 (mem a + mem_curr a))) /\
  (mem_size a <= wrap64 (mem_curr a + size) ->
     (size <= m1 -> ssmem_alloc cfg chunk w a size = taken m1) /\
     (forall k,
        m1 < size ->
        (forall j, (j < k)%nat ->
           wrap64 (m1 * 2 ^ Z.of_nat j) < size /\
           wrap64 (m1 * 2 ^ Z.of_nat j) <= SSMEM_MEM_SIZE_MAX cfg) ->
        (size <= wrap64 (m1 * 2 ^ Z.of_nat k) ->
         ssmem_alloc cfg chunk w a size = taken (wrap64 (m1 * 2 ^ Z.of_nat k))) /\
        (wrap64 (m1 * 2 ^ Z.of_nat k) < size ->
         SSMEM_MEM_SIZE_MAX cfg < wrap64 (m1 * 2 ^ Z.of_nat k) ->
         ssmem_alloc cfg chunk w a size = Abort)) /\
     (m1 < size ->
      (forall i, wrap64 (m1 * 2 ^ Z.of_nat i) < size /\
                 wrap64 (m1 * 2 ^ Z.of_nat i) <= SSMEM_MEM_SIZE_MAX cfg) ->
      ssmem_alloc cfg chunk w a size = Timeout /\
      forall fuel, grow_loop cfg fuel m1 size = Timeout) /\
     ((exists k,
         (forall j, (j < k)%nat ->
            wrap64 (m1 * 2 ^ Z.of_nat j) < size /\
            wrap64 (m1 * 2 ^ Z.of_nat j) <= SSMEM_MEM_SIZE_MAX cfg) /\
         (size <= wrap64 (m1 * 2 ^ Z.of_nat k) \/
          (wrap64 (m1 * 2 ^ Z.of_nat k) < size /\
           SSMEM_MEM_SIZE_MAX cfg < wrap64 (m1 * 2 ^ Z.of_nat k)))) \/
      (forall i, wrap64 (m1 * 2 ^ Z.of_nat i) < size /\
                 wrap64 (m1 * 2 ^ Z.of_nat i) <= SSMEM_MEM_SIZE_MAX cfg)) /\
     (forall w' a' m, ssmem_alloc cfg chunk w a size = Ok (w', a', m) ->
        mem_chunks a' = chunk :: mem_chunks a /\ mem a' = chunk /\
        m = wrap64 chunk /\ mem_curr a' = wrap64 size /\
        size <= mem_size a')).
Proof.
  intros Hc Hms Hmax m1 taken.
  rewrite (alloc_from_arena cfg chunk w a size Hc). split.
  - intros Hlt.
    destruct (Z.geb_spec (wrap64 (mem_curr a + size)) (mem_size a)); [lia|].
    reflexivity.
  - intros Hge.
    destruct (Z.geb_spec (wrap64 (mem_curr a + size)) (mem_size a)); [|lia].
    pose proof (mem_size_doubled_range cfg a Hms Hmax) as Hm1.
    fold m1 in Hm1.
    split; [|split; [|split; [|split]]];
      [rewrite new_chunk_unfold; fold m1.. | | ].
    + intros Hfit. destruct (Z.gtb_spec size m1); [lia|].
      unfold taken. cbn. now rewrite Z.add_0_r.
    + intros k Hbig Hbelow. destruct (Z.gtb_spec size m1); [|lia].
      destruct (grow_loop_outcome cfg size m1 Hm1 (proj1 Hmax) Hbig) as (Hout & _).
      destruct (Hout k Hbelow) as (Hok & Hab). split.
      * intros Hfits. rewrite (Hok Hfits). unfold taken. cbn.
        now rewrite Z.add_0_r.
      * intros Hsmall Hover. now rewrite (Hab Hsmall Hover).
    + intros Hbig Hall. destruct (Z.gtb_spec size m1); [|lia].
      destruct (grow_loop_outcome cfg size m1 Hm1 (proj1 Hmax) Hbig) as (_ & Hloop).
      split; [|exact (Hloop Hall)]. now rewrite (Hloop Hall grow_fuel).
    + exact (doubled_sizes_cases (SSMEM_MEM_SIZE_MAX cfg) size m1).
    + intros w' a' m Hal.
      apply bind_Ok in Hal as (a1 & Hnew & Hal).
      apply bind_Ok in Hal as (w1 & _ & Hal). injection Hal as <- <- <-.
      pose proof (new_chunk_fits _ _ _ _ _ Hnew) as Hsize.
      destruct (new_chunk_Ok _ _ _ _ _ Hnew) as (-> & -> & ->). cbn.
      rewrite Z.add_0_r. auto.
Qed.

Lemma alloc_new_chunk_iff_witness :
  ssmem_alloc example_config 8192 (one_thread 0) sixteen_left 15
    = Ok (one_thread 0,
          with_arena sixteen_left 4096 4095 4096 4096 [4096], 8176) /\
  ssmem_alloc example_config 8192 (one_thread 0) sixteen_left 16
    = Ok (one_thread 0,
          with_arena sixteen_left 8192 16 4096 8192 [8192; 4096], 8192) /\
  ssmem_alloc example_config 8192 (one_thread 0) sixteen_left 5000
    = Ok (one_thread 0,
          with_arena sixteen_left 8192 5000 8192 12288 [8192; 4096], 8192) /\
  ssmem_alloc doubling_config 8192 (one_thread 0) sixteen_left 16
    = Ok (one_thread 0,
          with_arena sixteen_left 8192 16 512 4608 [8192; 4096], 8192) /\
  ssmem_alloc doubling_config 8192 (one_thread 0) sixteen_left 5000 = Abort /\
  ssmem_alloc example_config 8192 (fst empty_arena) (snd empty_arena) 16
    = Timeout.
Proof.
  assert (Hms : 0 <= 4096 < 2 ^ 64) by lia.
  assert (Hmax : 0 <= SSMEM_MEM_SIZE_MAX example_config < 2 ^ 64)
    by (cbn; lia).
  pose proof (alloc_new_chunk_iff example_config 8192 (one_thread 0)
                sixteen_left) as H.
  split; [|split; [|split; [|split; [|split]]]].
  - refine (proj1 (H 15 eq_refl Hms Hmax) _).
    apply Z.ltb_lt. reflexivity.
  - refine (proj1 (proj2 (H 16 eq_refl Hms Hmax) _) _).
    + apply Z.leb_le. reflexivity.
    + apply Z.leb_le. reflexivity.
  - refine (proj1 (proj1 (proj2 (proj2 (H 5000 eq_refl Hms Hmax) _)) 1%nat _ _) _).
    + apply Z.leb_le. reflexivity.
    + apply Z.ltb_lt. reflexivity.
    + intros j Hj. assert (j = 0%nat) as -> by lia.
      split; [apply Z.ltb_lt | apply Z.leb_le]; reflexivity.
    + apply Z.leb_le. reflexivity.
  - refine (proj1 (proj2
              (alloc_new_chunk_iff doubling_config 8192 (one_thread 0)
                 sixteen_left 16 eq_refl Hms _) _) _).
    + cbn. lia.
    + apply Z.leb_le. reflexivity.
    + apply Z.leb_le. reflexivity.
  - refine (proj2 (proj1 (proj2 (proj2
              (alloc_new_chunk_iff doubling_config 8192 (one_thread 0)
                 sixteen_left 5000 eq_refl Hms _) _)) 1%nat _ _) _ _).
    + cbn. lia.
    + apply Z.leb_le. reflexivity.
    + apply Z.ltb_lt. reflexivity.
    + intros j Hj. assert (j = 0%nat) as -> by lia.
      split; [apply Z.ltb_lt | apply Z.leb_le]; reflexivity.
    + apply Z.ltb_lt. reflexivity.
    + apply Z.ltb_lt. reflexivity.
  - refine (proj1 (proj1 (proj2 (proj2 (proj2
              (alloc_new_chunk_iff example_config 8192 (fst empty_arena)
                 (snd empty_arena) 16 eq_refl _ Hmax) _))) _ _)).
    + cbn. lia.
    + apply Z.leb_le. reflexivity.
    + apply Z.ltb_lt. reflexivity.
    + intros i. change (mem_size_doubled example_config (snd empty_arena)) with 0.
      rewrite Z.mul_0_l. change (wrap64 0) with 0. cbn. lia.
Defined.

(** X9: The block that [ssmem_alloc] takes from the arena lies inside the
    current chunk: for a request that does not overflow [mem_curr + size],
    the pointer is the chunk base plus an offset [off] with
    [off + size <= mem_size], and the cursor is left at the end of the
    block. *)
Theorem alloc_block_inside_chunk (cfg : config) (chunk : Z) (w w' : world)
    (a a' : ssmem_allocator) (size m : Z) :
  collected_set_list a = [] ->
  0 <= mem_curr a -> 0 <= size -> mem_curr a + size < 2 ^ 64 ->
  ssmem_alloc cfg chunk w a size = Ok (w', a', m) ->
  exists off,
    m = wrap64 (mem a' + off) /\ 0 <= off /\
    off + size <= mem_size a' /\ mem_curr a' = off + size.
Proof.
  intros Hc Hcur Hsize Hno H.
  rewrite (alloc_from_arena cfg chunk w a size Hc) in H.
  apply bind_Ok in H as (a1 & Ha1 & H).
  apply bind_Ok in H as (w1 & _ & H). injection H as <- <- <-.
  rewrite wrap64_small in Ha1 by lia.
  destruct (Z.geb_spec (mem_curr a + size) (mem_size a)).
  - pose proof (new_chunk_fits _ _ _ _ _ Ha1) as Hfit.
    destruct (new_chunk_Ok _ _ _ _ _ Ha1) as (Hmem & Hcur1 & _).
    exists 0. cbn. rewrite Hcur1. rewrite (wrap64_small (0 + size)) by lia.
    repeat split; lia.
  - injection Ha1 as <-. exists (mem_curr a). cbn.
    rewrite (wrap64_small (mem_curr a + size)) by lia. repeat split; lia.
Qed.

Lemma alloc_block_inside_chunk_witness :
  exists off,
    4096 + 4000 = wrap64 (4096 + off) /\ 0 <= off /\
    off + 80 <= 4096 /\ 4080 = off + 80.
Proof.
  exact (alloc_block_inside_chunk example_config 8192 (one_thread 0) (one_thread 0)
           nearly_full (with_arena nearly_full 4096 4080 4096 4096 [4096]) 80 8096
           eq_refl ltac:(cbn; lia) ltac:(lia) ltac:(cbn; lia) eq_refl).
Defined.

(** X10: A request so large that [mem_curr + size] overflows is not refused:
    the sum wraps below the cursor, the test for a new chunk fails, the
    request is served from the current chunk at the cursor and the cursor
    moves backwards, over blocks already handed out. *)
Theorem alloc_size_overflow (cfg : config) (chunk : Z) (w w' : world)
    (a : ssmem_allocator) (size : Z) :
  collected_set_list a = [] ->
  0 <= mem_curr a <= mem_size a ->
  0 <= size < 2 ^ 64 -> mem_size a < 2 ^ 64 ->
  2 ^ 64 <= mem_curr a + size ->
  ts_next_on_alloc cfg w = Ok w' ->
  ssmem_alloc cfg chunk w a size =
    Ok (w', with_arena a (mem a) (mem_curr a + size - 2 ^ 64) (mem_size a)
              (tot_size a) (mem_chunks a),
        wrap64 (mem a + mem_curr a)) /\
  mem_curr a + size - 2 ^ 64 < mem_curr a.
Proof.
  intros Hc Hcur Hsize Hm Hover Hts.
  assert (Hw : wrap64 (mem_curr a + size) = mem_curr a + size - 2 ^ 64).
  { unfold wrap64. symmetry. apply Z.mod_unique with (q := 1); lia. }
  split; [|lia].
  rewrite (alloc_bump cfg chunk w w' a size Hc); [now rewrite Hw | lia | exact Hts].
Qed.

Lemma alloc_size_overflow_witness :
  ssmem_alloc example_config 8192 (one_thread 0) nearly_full (2 ^ 64 - 8)
  = Ok (one_thread 0, with_arena nearly_full 4096 3992 4096 4096 [4096], 8096).
Proof.
  refine (proj1 (alloc_size_overflow example_config 8192 (one_thread 0) (one_thread 0)
                   nearly_full (2 ^ 64 - 8) eq_refl _ _ _ _ eq_refl)); cbn; lia.
Defined.

(** ** What a reclamation pass moves *)

(** X11: A pass of [ssmem_mem_reclaim] that returns promotes nothing or the
    whole suffix of the free-set list: the head free set stays the head,
    the promoted sets are appended to the collected-set list as they are,
    and the arena, the available-set list and the capacity are not
    touched. *)
Theorem mem_reclaim_all_or_nothing (w w1 : world) (a a1 : ssmem_allocator) (n : Z) :
  ssmem_mem_reclaim w a = Ok (w1, a1, n) ->
  exists head suffix,
    free_set_list a = head :: suffix /\
    ((free_set_list a1 = head :: suffix /\
      collected_set_list a1 = collected_set_list a /\ n = 0) \/
     (free_set_list a1 = [head] /\
      collected_set_list a1 = collected_set_list a ++ suffix /\
      suffix <> [])) /\
    available_set_list a1 = available_set_list a /\
    fs_size a1 = fs_size a /\ same_arena a a1.
Proof.
  unfold ssmem_mem_reclaim. intros H.
  apply bind_Ok in H as ([w' a'] & Hrel & H).
  apply bind_Ok in H as ([a'' n'] & Hfs & H). injection H as <- <- <-.
  destruct (reclaim_released_frame _ _ _ _ Hrel) as ((l & m & ->) & _).
  clear Hrel. unfold reclaim_free_sets in Hfs.
  cbn [free_set_list with_released] in Hfs.
  destruct (free_set_list a) as [|fs_cur suffix] eqn:Hl; [discriminate|].
  exists fs_cur, suffix. split; [reflexivity|].
  assert (Hsame : forall x, x = with_released a l m ->
            (free_set_list x = fs_cur :: suffix /\
             collected_set_list x = collected_set_list a) /\
            available_set_list x = available_set_list a /\
            fs_size x = fs_size a /\ same_arena a x).
  { intros x ->. cbn. unfold same_arena. cbn. auto 10. }
  destruct (ts_set fs_cur);
    [|injection Hfs as <- <-; destruct (Hsame _ eq_refl) as ((?&?)&?&?&?); auto 10].
  destruct suffix as [|fs_nxt rest];
    [injection Hfs as <- <-; destruct (Hsame _ eq_refl) as ((?&?)&?&?&?); auto 10|].
  destruct (ts_set fs_nxt);
    [|injection Hfs as <- <-; destruct (Hsame _ eq_refl) as ((?&?)&?&?&?); auto 10].
  apply bind_Ok in Hfs as (newer & _ & Hfs).
  destruct newer;
    [|injection Hfs as <- <-; destruct (Hsame _ eq_refl) as ((?&?)&?&?&?); auto 10].
  injection Hfs as <- <-. cbn. unfold same_arena. cbn.
  split; [right; split; [reflexivity|]; split; [reflexivity | discriminate]|].
  auto 10.
Qed.

Lemma mem_reclaim_all_or_nothing_witness :
  exists head suffix,
    free_set_list three_full_sets = head :: suffix /\
    suffix = [full_set [Some 2] 4128 4144; full_set [Some 1] 4096 4112].
Proof.
  destruct (ssmem_mem_reclaim (registry_of_len 1) three_full_sets)
    as [[[w1 a1] n]| | |] eqn:E.
  - destruct (mem_reclaim_all_or_nothing _ _ _ _ _ E) as (head & suffix & Hl & _).
    exists head, suffix. split; [exact Hl|]. cbn in Hl. now injection Hl as _ <-.
  - vm_compute in E. discriminate E.
  - vm_compute in E. discriminate E.
  - vm_compute in E. discriminate E.
Defined.

(** ** Releasing *)

(** X12: Below the threshold [ssmem_release] only records the object: the new
    record, with its snapshot, is pushed on the released list, the counter
    is incremented, nothing is handed to the backend and no free set is
    promoted. *)
Theorem release_below_threshold (cfg : config) (w : world) (a : ssmem_allocator)
    (obj : Z) (s0 : buffer) :
  0 <= released_num a < 2 ^ 31 - 1 ->
  released_num a + 1 < SSMEM_GC_RLSE_SET_SIZE cfg ->
  ssmem_ts_set_collect w (Some (malloc_words (ssmem_ts_list_len w))) = Ok s0 ->
  ssmem_release cfg w a obj =
    Ok (w, with_released a ({| rel_mem := obj; rel_ts_set := s0 |}
                              :: released_mem_list a) (released_num a + 1)).
Proof.
  intros Hn Hthr Hs0. unfold ssmem_release, ssmem_released_node_new.
  cbn [rel_mem rel_ts_set]. rewrite Hs0. cbn [mbind res_bind rbind].
  rewrite wrap64_small by lia. rewrite to_int_small by lia.
  destruct (Z.geb_spec (released_num a + 1) (SSMEM_GC_RLSE_SET_SIZE cfg)); [lia|].
  reflexivity.
Qed.

Lemma release_below_threshold_witness :
  ssmem_release example_config (one_thread 5) (snd (fresh 2)) 9000
  = Ok (one_thread 5,
        with_released (snd (fresh 2))
          [ {| rel_mem := 9000; rel_ts_set := [Some 5] |} ] 1).
Proof.
  apply (release_below_threshold example_config (one_thread 5) (snd (fresh 2))
           9000 [Some 5]); [cbn; lia | cbn; lia | reflexivity].
Defined.

(** X13: Whatever the snapshots, a [ssmem_release] that returns keeps the
    record of the object just released at the head of the released list,
    and frees all the older records or none: either the older records all
    stay behind the new one and nothing is handed to the backend, or the
    new record is alone on the list, [released_num] is 1 and the objects
    of all the older records, oldest last, have been handed to the
    backend's [free]. *)
Theorem release_frees_all_older_or_none (cfg : config) (w w' : world)
    (a a' : ssmem_allocator) (obj : Z) :
  ssmem_release cfg w a obj = Ok (w', a') ->
  exists R0,
    rel_mem R0 = obj /\
    ((released_mem_list a' = R0 :: released_mem_list a /\
      released_num a' = wrap64 (released_num a + 1) /\
      backend_freed w' = backend_freed w) \/
     (released_mem_list a' = [R0] /\ released_num a' = 1 /\
      released_mem_list a <> [] /\
      backend_freed w' = backend_freed w ++ List.map rel_mem (released_mem_list a))).
Proof.
  unfold ssmem_release. intros H. apply bind_Ok in H as (ts' & _ & H).
  cbn [rel_mem ssmem_released_node_new] in H.
  exists {| rel_mem := obj; rel_ts_set := ts' |}. split; [reflexivity|].
  destruct (_ >=? _); [|injection H as <- <-; left; auto].
  apply bind_Ok in H as ([[w1 a2] n] & Hmr & H). injection H as <- <-.
  unfold ssmem_mem_reclaim in Hmr.
  apply bind_Ok in Hmr as ([wr ar] & Hrel & Hmr).
  apply bind_Ok in Hmr as ([af nf] & Hfs & Hmr). injection Hmr as <- <- <-.
  destruct (reclaim_free_sets_frame _ _ _ _ Hfs) as (-> & -> & _).
  clear Hfs. unfold reclaim_released in Hrel.
  cbn [released_num released_mem_list with_released] in Hrel.
  destruct (_ >? 0); [|injection Hrel as <- <-; left; auto].
  destruct (released_mem_list a) as [|R1 rest] eqn:Hl;
    [injection Hrel as <- <-; left; auto|].
  apply bind_Ok in Hrel as (newer & _ & Hrel).
  destruct newer; injection Hrel as <- <-; [right | left; auto].
  cbn. split; [reflexivity|]. split; [reflexivity|]. split; [discriminate | reflexivity].
Qed.

Lemma release_frees_all_older_or_none_witness :
  exists R0,
    rel_mem R0 = 10000 /\
    ((released_mem_list
        (with_released two_released
           [ {| rel_mem := 10000; rel_ts_set := [Some 5] |} ] 1)
      = R0 :: released_mem_list two_released /\
      1 = wrap64 (released_num two_released + 1) /\
      backend_freed (log_free (one_thread 5) [9000; 8000])
      = backend_freed (one_thread 5)) \/
     (released_mem_list
        (with_released two_released
           [ {| rel_mem := 10000; rel_ts_set := [Some 5] |} ] 1) = [R0] /\
      1 = 1 /\ released_mem_list two_released <> [] /\
      backend_freed (log_free (one_thread 5) [9000; 8000])
      = backend_freed (one_thread 5)
        ++ List.map rel_mem (released_mem_list two_released))).
Proof.
  apply (release_frees_all_older_or_none example_config (one_thread 5)
           (log_free (one_thread 5) [9000; 8000]) two_released
           (with_released two_released
              [ {| rel_mem := 10000; rel_ts_set := [Some 5] |} ] 1) 10000).
  vm_compute. reflexivity.
Defined.

(** ** Freeing *)

(** X14: After a [ssmem_free] that returns, the freed pointer is the last one
    of the head free set: the head holds at least one pointer and the word
    below its fill is the pointer. *)
Theorem free_pushes_pointer (cfg : config) (w w' : world)
    (a a' : ssmem_allocator) (obj : Z) :
  ssmem_free cfg w a obj = Ok (w', a') ->
  exists head rest,
    free_set_list a' = head :: rest /\
    1 <= curr head /\ entry (set head) (curr head - 1) obj.
Proof.
  unfold ssmem_free. intros H.
  apply bind_Ok in H as ([w1 a1] & _ & H).
  apply bind_Ok in H as (a2 & Hst & H).
  apply bind_Ok in H as (w2 & _ & H). injection H as <- <-.
  unfold free_store in Hst.
  destruct (free_set_list a1) as [|fs rest]; [discriminate|].
  apply bind_Ok in Hst as (set' & Hstore & Hst). injection Hst as <-.
  apply store_Ok in Hstore as (Hc & Hlt & ->).
  eexists _, rest. split; [reflexivity|]. cbn. split; [lia|].
  split; [lia|]. replace (curr fs + 1 - 1) with (curr fs) by lia.
  now apply list_lookup_insert_eq.
Qed.

Lemma free_pushes_pointer_witness :
  exists head rest,
    free_set_list
      (with_free_sets (snd (fresh 1))
         [ {| ts_set := None; size := 1; curr := 1; set := [Some 4096] |} ] 1)
    = head :: rest /\
    1 <= curr head /\ entry (set head) (curr head - 1) 4096.
Proof.
  apply (free_pushes_pointer example_config (fst (fresh 1)) (one_thread 1)
           (snd (fresh 1))
           (with_free_sets (snd (fresh 1))
              [ {| ts_set := None; size := 1; curr := 1; set := [Some 4096] |} ] 1)
           4096).
  vm_compute. reflexivity.
Defined.

(** ** The containers circulate *)

Lemma mem_reclaim_containers w a w1 a1 n :
  ssmem_mem_reclaim w a = Ok (w1, a1, n) ->
  containers a1 = containers a /\
  available_set_list a1 = available_set_list a.
Proof.
  unfold ssmem_mem_reclaim. intros H.
  apply bind_Ok in H as ([w' a'] & Hrel & H).
  apply bind_Ok in H as ([a'' n'] & Hfs & H). injection H as <- <- <-.
  destruct (reclaim_released_frame _ _ _ _ Hrel) as ((l & m & ->) & _).
  clear Hrel. unfold reclaim_free_sets in Hfs.
  cbn [free_set_list with_released] in Hfs.
  destruct (free_set_list a) as [|fs_cur suffix] eqn:Hl; [discriminate|].
  assert (Hsame : containers (with_released a l m) = containers a /\
                  available_set_list (with_released a l m) = available_set_list a)
    by (split; reflexivity).
  destruct (ts_set fs_cur); [|now injection Hfs as <- <-].
  destruct suffix as [|fs_nxt rest]; [now injection Hfs as <- <-|].
  destruct (ts_set fs_nxt); [|now injection Hfs as <- <-].
  apply bind_Ok in Hfs as (newer & _ & Hfs).
  destruct newer; [|now injection Hfs as <- <-].
  injection Hfs as <- <-. split; [|reflexivity].
  unfold containers. cbn. rewrite Hl, length_app. cbn. lia.
Qed.

Lemma alloc_containers cfg chunk w a size w' a' m :
  ssmem_alloc cfg chunk w a size = Ok (w', a', m) ->
  containers a' = containers a.
Proof.
  unfold ssmem_alloc. intros H.
  apply bind_Ok in H as ([a1 m1] & Hbody & H).
  apply bind_Ok in H as (w1 & _ & H). injection H as <- <- <-.
  destruct (collected_set_list a) as [|cs cs_next] eqn:Hc.
  - apply bind_Ok in Hbody as (a2 & Hnew & Hbody). injection Hbody as <- <-.
    destruct (wrap64 (mem_curr a + size) >=? mem_size a).
    + unfold new_chunk in Hnew. apply bind_Ok in Hnew as (s & _ & Hnew).
      injection Hnew as <-. unfold containers. cbn. now rewrite Hc.
    + injection Hnew as <-. unfold containers. cbn. now rewrite Hc.
  - apply bind_Ok in Hbody as (v & _ & Hbody).
    destruct (curr cs - 1 <=? 0); injection Hbody as <- <-;
      unfold containers; cbn; rewrite Hc; cbn; lia.
Qed.

Lemma release_containers cfg w a obj w' a' :
  ssmem_release cfg w a obj = Ok (w', a') -> containers a' = containers a.
Proof.
  unfold ssmem_release. intros H. apply bind_Ok in H as (ts' & _ & H).
  destruct (_ >=? _); [|now injection H as <- <-].
  apply bind_Ok in H as ([[w1 a2] n] & Hmr & H). injection H as <- <-.
  now destruct (mem_reclaim_containers _ _ _ _ _ Hmr).
Qed.

Lemma free_store_containers a obj a' :
  free_store a obj = Ok a' ->
  containers a' = containers a /\
  available_set_list a' = available_set_list a.
Proof.
  unfold free_store. intros H.
  destruct (free_set_list a) as [|fs rest] eqn:Hl; [discriminate|].
  apply bind_Ok in H as (set' & _ & H). injection H as <-.
  unfold containers. cbn. now rewrite Hl.
Qed.

Lemma free_prepare_containers w a w' a' :
  free_prepare w a = Ok (w', a') ->
  (containers a <= containers a' <= containers a + 1)%nat.
Proof.
  unfold free_prepare. intros H.
  destruct (free_set_list a) as [|fs rest] eqn:Hl; [discriminate|].
  destruct (_ =? _); [|injection H as <- <-; lia].
  unfold snapshot_and_reclaim in H.
  apply bind_Ok in H as (ts' & _ & H).
  apply bind_Ok in H as ([[wr ar] n] & Hmr & H).
  destruct (mem_reclaim_containers _ _ _ _ _ Hmr) as (Hcount & _).
  assert (Hc1 : containers ar = containers a).
  { rewrite Hcount. unfold containers. cbn. now rewrite Hl. }
  unfold ssmem_free_set_get_avail in H.
  destruct (available_set_list ar) as [|c avail] eqn:Hav; injection H as <- <-;
    rewrite <- Hc1; unfold containers; cbn; rewrite ?Hav; cbn; lia.
Qed.

(** X15: No free-set container is ever dropped, and a step creates at most
    one: over any step of a run, the number of containers held in the
    free-set, collected-set and available-set lists does not decrease and
    grows by at most one. *)
Theorem containers_never_dropped (cfg : config) (s s' : state) :
  step cfg s s' ->
  (containers (snd s) <= containers (snd s') <= containers (snd s) + 1)%nat.
Proof.
  intros Hstep. destruct Hstep as
    [chunk w a size w' a' m H | w a obj w' a' H | w a obj w' a' H
    | w a w' a' n H | w a w' H | w a l n]; cbn [snd]; try lia.
  - rewrite (alloc_containers _ _ _ _ _ _ _ _ H). lia.
  - unfold ssmem_free in H.
    apply bind_Ok in H as ([w1 a1] & Hprep & H).
    apply bind_Ok in H as (a2 & Hst & H).
    apply bind_Ok in H as (w2 & _ & H). injection H as <- <-.
    destruct (free_store_containers _ _ _ Hst) as (-> & _).
    exact (free_prepare_containers _ _ _ _ Hprep).
  - rewrite (release_containers _ _ _ _ _ _ H). lia.
  - destruct (mem_reclaim_containers _ _ _ _ _ H) as (-> & _). lia.
Qed.

Lemma containers_never_dropped_witness :
  (containers (snd (fresh 1)) <= containers (snd after_first_free)
   <= containers (snd (fresh 1)) + 1)%nat.
Proof.
  apply (containers_never_dropped example_config (fresh 1) after_first_free).
  apply (step_free example_config (fst (fresh 1)) (snd (fresh 1)) 4096).
  vm_compute. reflexivity.
Defined.

(** X16: When the head free set is full and the available-set list is not
    empty, [ssmem_free] allocates no container: the new head is the first
    container of the available-set list, with the snapshot and the pointer
    array it had, its fill restarted at 0 and the freed pointer stored in
    word 0. *)
Theorem free_recycles_available_container (cfg : config) (w w' : world)
    (a a' : ssmem_allocator) (obj : Z) (head c : ssmem_free_set)
    (rest avail : list ssmem_free_set) :
  free_set_list a = head :: rest ->
  wrap64 (curr head) = wrap64 (size head) ->
  available_set_list a = c :: avail ->
  ssmem_free cfg w a obj = Ok (w', a') ->
  exists rest',
    free_set_list a' =
      {| ts_set := ts_set c; size := size c; curr := 1;
         set := <[0%nat := Some obj]> (set c) |} :: rest' /\
    available_set_list a' = avail /\
    containers a' = containers a.
Proof.
  intros Hl Hfull Hav H. unfold ssmem_free in H.
  apply bind_Ok in H as ([w1 a1] & Hprep & H).
  apply bind_Ok in H as (a2 & Hst & H).
  apply bind_Ok in H as (w2 & _ & H). injection H as <- <-.
  unfold free_prepare in Hprep. rewrite Hl in Hprep.
  apply Z.eqb_eq in Hfull. rewrite Hfull in Hprep.
  unfold snapshot_and_reclaim in Hprep.
  apply bind_Ok in Hprep as (ts' & _ & Hprep).
  apply bind_Ok in Hprep as ([[wr ar] n] & Hmr & Hprep).
  destruct (mem_reclaim_containers _ _ _ _ _ Hmr) as (Hcount & Havr).
  cbn [available_set_list with_free_sets] in Havr. rewrite Hav in Havr.
  unfold ssmem_free_set_get_avail in Hprep. rewrite Havr in Hprep.
  injection Hprep as <- <-.
  unfold free_store in Hst. cbn [free_set_list with_free_sets] in Hst.
  apply bind_Ok in Hst as (set' & Hstore & Hst). injection Hst as <-.
  cbn [set curr fs_with_curr] in Hstore.
  apply store_Ok in Hstore as (_ & _ & ->).
  eexists. split; [reflexivity|]. split; [reflexivity|].
  unfold containers in *. cbn in *. rewrite Havr in Hcount. rewrite Hl, Hav in *.
  cbn in *. lia.
Qed.

Lemma free_recycles_available_container_witness :
  exists rest',
    free_set_list
      (with_available_sets
         (with_free_sets with_available_container
            [ {| ts_set := Some [Some 1]; size := 2; curr := 1;
                 set := [Some 4192; Some 4112] |};
              full_set [Some 5] 4160 4176 ] 2) [])
    = {| ts_set := Some [Some 1]; size := 2; curr := 1;
         set := <[0%nat := Some 4192]> [Some 4096; Some 4112] |} :: rest' /\
    available_set_list
      (with_available_sets
         (with_free_sets with_available_container
            [ {| ts_set := Some [Some 1]; size := 2; curr := 1;
                 set := [Some 4192; Some 4112] |};
              full_set [Some 5] 4160 4176 ] 2) []) = [] /\
    containers
      (with_available_sets
         (with_free_sets with_available_container
            [ {| ts_set := Some [Some 1]; size := 2; curr := 1;
                 set := [Some 4192; Some 4112] |};
              full_set [Some 5] 4160 4176 ] 2) [])
    = containers with_available_container.
Proof.
  apply (free_recycles_available_container example_config (one_thread 5) (one_thread 6)
           with_available_container _ 4192
           (full_set [Some 3] 4160 4176)
           {| ts_set := Some [Some 1]; size := 2; curr := 0;
              set := [Some 4096; Some 4112] |} [] []);
    [reflexivity | reflexivity | reflexivity | vm_compute; reflexivity].
Defined.

(** ** The collected sets hold written pointers *)

Lemma filled_decr fs :
  filled fs -> filled (fs_with_curr fs (curr fs - 1)) \/ curr fs = 0.
Proof.
  intros [Hc Hw]. destruct (Z.eq_dec (curr fs) 0) as [|Hne]; [now right|left].
  split; cbn; [lia|]. intros i Hi. apply Hw. lia.
Qed.

Lemma filled_store fs obj set' :
  filled fs -> store (set fs) (curr fs) obj = Ok set' ->
  filled (fs_with_curr (fs_with_set fs set') (curr fs + 1)).
Proof.
  intros [Hc Hw] Hst. apply store_Ok in Hst as (_ & Hlt & ->).
  split; cbn; [lia|]. intros i Hi.
  destruct (Z.eq_dec i (curr fs)) as [->|Hne].
  - exists obj. split; [lia|]. now apply list_lookup_insert_eq.
  - destruct (Hw i) as (p & Hi0 & Hp); [lia|]. exists p. split; [lia|].
    rewrite list_lookup_insert_ne; [exact Hp | lia].
Qed.

Lemma reclaim_free_sets_filled w a a1 n :
  reclaim_free_sets w a = Ok (a1, n) ->
  lists_ok a -> 1 <= fs_size a -> sets_filled a -> sets_filled a1.
Proof.
  unfold reclaim_free_sets. intros H Hok Hcap [Hfree Hcoll].
  destruct (free_set_list a) as [|fs_cur suffix] eqn:Hl; [discriminate|].
  destruct (ts_set fs_cur); [|injection H as <- <-; split; [now rewrite Hl|exact Hcoll]].
  destruct suffix as [|fs_nxt rest];
    [injection H as <- <-; split; [now rewrite Hl|exact Hcoll]|].
  destruct (ts_set fs_nxt); [|injection H as <- <-; split; [now rewrite Hl|exact Hcoll]].
  apply bind_Ok in H as (newer & _ & H).
  destruct newer; [|injection H as <- <-; split; [now rewrite Hl|exact Hcoll]].
  injection H as <- <-.
  destruct Hok as (_ & Hmade & _ & _ & head & tl & Hhd & _ & Hfull).
  rewrite Hl in Hhd, Hmade. injection Hhd as <- <-.
  inversion Hfree as [|? ? Hf0 Hfrest]; subst.
  inversion Hmade as [|? ? _ Hmrest]; subst.
  split; cbn.
  - constructor; [exact Hf0 | constructor].
  - apply Forall_app. split; [exact Hcoll|].
    rewrite Forall_forall in Hfrest, Hmrest, Hfull |- *.
    intros fs Hfs. split; [now apply Hfrest|].
    destruct (Hfull fs Hfs) as [-> _]. destruct (Hmrest fs Hfs) as [-> _]. exact Hcap.
Qed.

Lemma mem_reclaim_filled w a w1 a1 n :
  ssmem_mem_reclaim w a = Ok (w1, a1, n) ->
  lists_ok a -> 1 <= fs_size a -> sets_filled a -> sets_filled a1.
Proof.
  unfold ssmem_mem_reclaim. intros H Hok Hcap Hf.
  apply bind_Ok in H as ([w' a'] & Hrel & H).
  apply bind_Ok in H as ([a'' n'] & Hfs & H). injection H as <- <- <-.
  pose proof (reclaim_released_lists_ok _ _ _ _ Hrel Hok) as Hok'.
  destruct (reclaim_released_frame _ _ _ _ Hrel) as ((l & m & ->) & _).
  exact (reclaim_free_sets_filled _ _ _ _ Hfs Hok' Hcap Hf).
Qed.

Lemma alloc_filled cfg chunk w a size w' a' m :
  ssmem_alloc cfg chunk w a size = Ok (w', a', m) ->
  sets_filled a -> sets_filled a'.
Proof.
  unfold ssmem_alloc. intros H [Hfree Hcoll].
  apply bind_Ok in H as ([a1 m1] & Hbody & H).
  apply bind_Ok in H as (w1 & _ & H). injection H as <- <- <-.
  destruct (collected_set_list a) as [|cs cs_next] eqn:Hc.
  - apply bind_Ok in Hbody as (a2 & Hnew & Hbody). injection Hbody as <- <-.
    destruct (wrap64 (mem_curr a + size) >=? mem_size a).
    + unfold new_chunk in Hnew. apply bind_Ok in Hnew as (s & _ & Hnew).
      injection Hnew as <-. split; cbn; [exact Hfree | now rewrite Hc].
    + injection Hnew as <-. split; cbn; [exact Hfree | now rewrite Hc].
  - apply bind_Ok in Hbody as (v & _ & Hbody).
    inversion Hcoll as [|? ? [Hcs Hone] Hrest]; subst.
    destruct (Z.leb_spec (curr cs - 1) 0); injection Hbody as <- <-.
    + split; cbn; assumption.
    + split; cbn; [assumption|]. constructor; [|assumption].
      split; [|cbn; lia]. destruct (filled_decr cs Hcs); [assumption | lia].
Qed.

Lemma free_filled cfg w a obj w' a' :
  ssmem_free cfg w a obj = Ok (w', a') ->
  lists_ok a -> 1 <= fs_size a -> sets_filled a -> sets_filled a'.
Proof.
  unfold ssmem_free. intros H Hok Hcap Hf.
  apply bind_Ok in H as ([w1 a1] & Hprep & H).
  apply bind_Ok in H as (a2 & Hst & H).
  apply bind_Ok in H as (w2 & _ & H). injection H as <- <-.
  assert (Hf1 : sets_filled a1).
  { unfold free_prepare in Hprep.
    destruct (free_set_list a) as [|fs rest] eqn:Hl; [discriminate|].
    destruct (_ =? _); [|now injection Hprep as <- <-].
    unfold snapshot_and_reclaim in Hprep.
    apply bind_Ok in Hprep as (ts' & _ & Hprep).
    apply bind_Ok in Hprep as ([[wr ar] n] & Hmr & Hprep).
    match type of Hmr with ssmem_mem_reclaim _ ?x = _ => set (a0 := x) in * end.
    assert (Hok0 : lists_ok a0).
    { destruct Hok as (Hfs & Hmade & Hcoll & Havail & head & tl & Hhd & Hcurr & Hfull).
      rewrite Hl in Hhd, Hmade. injection Hhd as <- <-.
      inversion Hmade as [|? ? Hm0 Hmrest]; subst.
      split; [exact Hfs|]. cbn.
      split; [constructor; [exact Hm0 | exact Hmrest]|].
      split; [exact Hcoll|]. split; [exact Havail|].
      exists (fs_with_ts_set fs (Some ts')), rest. auto. }
    assert (Hf0 : sets_filled a0).
    { destruct Hf as [Hfree Hcoll]. rewrite Hl in Hfree.
      inversion Hfree; subst. split; cbn; [constructor; assumption | exact Hcoll]. }
    pose proof (mem_reclaim_filled _ _ _ _ _ Hmr Hok0 Hcap Hf0) as [Hfr Hcr].
    unfold ssmem_free_set_get_avail in Hprep.
    destruct (available_set_list ar) as [|c avail]; injection Hprep as <- <-;
      (split; cbn; [constructor; [|exact Hfr] | exact Hcr]);
      (split; cbn; [lia | intros i Hi; lia]). }
  unfold free_store in Hst.
  destruct (free_set_list a1) as [|fs rest] eqn:Hl; [discriminate|].
  apply bind_Ok in Hst as (set' & Hstore & Hst). injection Hst as <-.
  destruct Hf1 as [Hfree Hcoll]. rewrite Hl in Hfree. inversion Hfree; subst.
  split; cbn; [|exact Hcoll].
  constructor; [|assumption]. now apply (filled_store fs obj).
Qed.

Lemma release_filled cfg w a obj w' a' :
  ssmem_release cfg w a obj = Ok (w', a') ->
  lists_ok a -> 1 <= fs_size a -> sets_filled a -> sets_filled a'.
Proof.
  unfold ssmem_release. intros H Hok Hcap Hf. apply bind_Ok in H as (ts' & _ & H).
  destruct (_ >=? _); [|now injection H as <- <-].
  apply bind_Ok in H as ([[w1 a2] n] & Hmr & H). injection H as <- <-.
  apply (mem_reclaim_filled _ _ _ _ _ Hmr); assumption.
Qed.

Lemma reachable_filled cfg s :
  reachable cfg s -> 1 <= fs_size (snd s) -> sets_filled (snd s).
Proof.
  induction 1 as [chunk slot w size fs id Hfs | s s' Hr IH Hstep]; intros Hcap.
  - unfold ssmem_alloc_init_fs_size.
    destruct (ssmem_gc_thread_init slot w id). cbn. split; cbn; [|constructor].
    constructor; [|constructor]. split; cbn; [lia | intros i Hi; lia].
  - pose proof (reachable_lists_ok _ _ Hr) as Hok.
    rewrite (step_fs_size _ _ _ Hstep Hok) in Hcap. specialize (IH Hcap).
    destruct Hstep as
      [chunk w a size w' a' m H | w a obj w' a' H | w a obj w' a' H
      | w a w' a' n H | w a w' H | w a l n]; cbn [snd] in *.
    + exact (alloc_filled _ _ _ _ _ _ _ _ H IH).
    + exact (free_filled _ _ _ _ _ _ H Hok Hcap IH).
    + exact (release_filled _ _ _ _ _ _ H Hok Hcap IH).
    + exact (mem_reclaim_filled _ _ _ _ _ H Hok Hcap IH).
    + exact IH.
    + exact IH.
Qed.

(** X17: In every reachable state of an allocator of capacity at least 1, an
    allocation with a collected set at hand is served from it without
    leaving its pointer array: the first collected set holds at least one
    pointer, the last one it received is returned, the arena and the
    free-set list are not touched, and the set stays at the head of the
    collected-set list with one pointer less or, having given its last
    pointer, moves to the head of the available-set list with fill 0. *)
Theorem alloc_from_collected_set (cfg : config) (chunk : Z) (w w' : world)
    (a : ssmem_allocator) (size : Z) (cs : ssmem_free_set)
    (rest : list ssmem_free_set) :
  reachable cfg (w, a) -> 1 <= fs_size a ->
  collected_set_list a = cs :: rest ->
  ts_next_on_alloc cfg w = Ok w' ->
  exists m a',
    1 <= curr cs /\ entry (set cs) (curr cs - 1) m /\
    ssmem_alloc cfg chunk w a size = Ok (w', a', m) /\
    same_arena a a' /\ free_set_list a' = free_set_list a /\
    (curr cs = 1 ->
       collected_set_list a' = rest /\
       available_set_list a' = fs_with_curr cs 0 :: available_set_list a) /\
    (1 < curr cs ->
       collected_set_list a' = fs_with_curr cs (curr cs - 1) :: rest /\
       available_set_list a' = available_set_list a).
Proof.
  intros Hr Hcap Hc Hts.
  destruct (reachable_filled _ _ Hr Hcap) as [_ Hcoll]. cbn [snd] in Hcoll.
  rewrite Hc in Hcoll. inversion Hcoll as [|? ? [[Hc0 Hw] Hone] _]; subst.
  destruct (Hw (curr cs - 1)) as (m & Hm); [lia|].
  unfold ssmem_alloc. rewrite Hc, (load_entry _ _ _ Hm). cbn [mbind res_bind rbind].
  destruct (Z.leb_spec (curr cs - 1) 0) as [Hle|Hgt]; cbn [mbind res_bind rbind];
    rewrite Hts; cbn [mbind res_bind rbind];
    eexists m, _; (split; [exact Hone|]); (split; [exact Hm|]);
    (split; [reflexivity|]); unfold same_arena; cbn.
  - repeat split; intros; lia.
  - repeat split; intros; lia.
Qed.

Lemma alloc_from_collected_set_witness :
  exists s m a',
    run example_config (fresh 2) promoting_run = Ok s /\
    ssmem_alloc example_config 8192 (fst s) (snd s) 16 = Ok (fst s, a', m) /\
    m = 4112.
Proof.
  destruct (run example_config (fresh 2) promoting_run) as [[w a]| | |] eqn:E.
  - pose proof E as E'. vm_compute in E'. injection E' as Ew Ea.
    assert (Hr : reachable example_config (w, a)).
    { apply (run_reachable example_config promoting_run (fresh 2));
        [apply fresh_reachable; lia | exact E]. }
    destruct (alloc_from_collected_set example_config 8192 w w a 16
                (full_set [Some 2] 4096 4112) [] Hr)
      as (m & a' & _ & Hm & Hal & _).
    + rewrite <- Ea. cbn. lia.
    + rewrite <- Ea. reflexivity.
    + reflexivity.
    + exists (w, a), m, a'. split; [reflexivity|]. split; [exact Hal|].
      destruct Hm as [_ Hm]. cbn in Hm. now injection Hm as <-.
  - vm_compute in E. discriminate E.
  - vm_compute in E. discriminate E.
  - vm_compute in E. discriminate E.
Defined.

(** ** The counters *)

Lemma reclaim_released_counted w a w1 a1 :
  reclaim_released w a = Ok (w1, a1) -> released_counted a -> released_counted a1.
Proof.
  unfold reclaim_released. intros H Hc.
  destruct (released_num a >? 0); [|now injection H as <- <-].
  destruct (released_mem_list a) as [|rel_cur [|rel_nxt rest]]; [discriminate| |].
  - now injection H as <- <-.
  - apply bind_Ok in H as ([] & _ & H); injection H as <- <-; [reflexivity | exact Hc].
Qed.

Lemma mem_reclaim_released_counted w a w1 a1 n :
  ssmem_mem_reclaim w a = Ok (w1, a1, n) -> released_counted a -> released_counted a1.
Proof.
  unfold ssmem_mem_reclaim. intros H Hc.
  apply bind_Ok in H as ([w' a'] & Hrel & H).
  apply bind_Ok in H as ([a'' n'] & Hfs & H). injection H as <- <- <-.
  destruct (reclaim_free_sets_frame _ _ _ _ Hfs) as (Hl & Hn & _).
  unfold released_counted. rewrite Hl, Hn.
  exact (reclaim_released_counted _ _ _ _ Hrel Hc).
Qed.

Lemma alloc_released_frame cfg chunk w a size w' a' m :
  ssmem_alloc cfg chunk w a size = Ok (w', a', m) ->
  released_mem_list a' = released_mem_list a /\ released_num a' = released_num a.
Proof.
  unfold ssmem_alloc. intros H.
  apply bind_Ok in H as ([a1 m1] & Hbody & H).
  apply bind_Ok in H as (w1 & _ & H). injection H as <- <- <-.
  destruct (collected_set_list a) as [|cs cs_next].
  - apply bind_Ok in Hbody as (a2 & Hnew & Hbody). injection Hbody as <- <-.
    destruct (wrap64 (mem_curr a + size) >=? mem_size a).
    + unfold new_chunk in Hnew. apply bind_Ok in Hnew as (s & _ & Hnew).
      now injection Hnew as <-.
    + now injection Hnew as <-.
  - apply bind_Ok in Hbody as (v & _ & Hbody).
    destruct (curr cs - 1 <=? 0); now injection Hbody as <- <-.
Qed.

Lemma free_released_counted cfg w a obj w' a' :
  ssmem_free cfg w a obj = Ok (w', a') -> released_counted a -> released_counted a'.
Proof.
  unfold ssmem_free. intros H Hc.
  apply bind_Ok in H as ([w1 a1] & Hprep & H).
  apply bind_Ok in H as (a2 & Hst & H).
  apply bind_Ok in H as (w2 & _ & H). injection H as <- <-.
  assert (Hc1 : released_counted a1).
  { unfold free_prepare in Hprep.
    destruct (free_set_list a) as [|fs rest]; [discriminate|].
    destruct (_ =? _); [|now injection Hprep as <- <-].
    unfold snapshot_and_reclaim in Hprep.
    apply bind_Ok in Hprep as (ts' & _ & Hprep).
    apply bind_Ok in Hprep as ([[wr ar] n] & Hmr & Hprep).
    apply mem_reclaim_released_counted in Hmr; [|exact Hc].
    unfold ssmem_free_set_get_avail in Hprep.
    destruct (available_set_list ar); injection Hprep as <- <-; exact Hmr. }
  unfold free_store in Hst.
  destruct (free_set_list a1) as [|fs rest]; [discriminate|].
  apply bind_Ok in Hst as (set' & _ & Hst). injection Hst as <-. exact Hc1.
Qed.

Lemma release_released_counted cfg w a obj w' a' :
  ssmem_release cfg w a obj = Ok (w', a') -> released_counted a -> released_counted a'.
Proof.
  unfold ssmem_release. intros H Hc. apply bind_Ok in H as (ts' & _ & H).
  match type of H with
  | (if _ then _ else Ok (_, ?x)) = _ => assert (Hc1 : released_counted x)
  end.
  { unfold released_counted in *. cbn [released_num released_mem_list with_released length].
    rewrite Hc. unfold wrap64. rewrite Zplus_mod_idemp_l. f_equal. lia. }
  destruct (_ >=? _); [|now injection H as <- <-].
  apply bind_Ok in H as ([[w1 a2] n] & Hmr & H). injection H as <- <-.
  exact (mem_reclaim_released_counted _ _ _ _ _ Hmr Hc1).
Qed.

(** X18: In every reachable state the two counters that the reclamation pass
    reads agree with the lists they count: [free_set_num] is the number of
    sets of the free-set list and [released_num] the number of records of
    the released list (as [size_t] values). *)
Theorem counters_agree_with_lists (cfg : config) (s : state) :
  reachable cfg s ->
  free_set_num (snd s) = wrap64 (Z.of_nat (length (free_set_list (snd s)))) /\
  released_num (snd s) = wrap64 (Z.of_nat (length (released_mem_list (snd s)))).
Proof.
  intros Hr. split; [exact (reachable_counted cfg s Hr)|].
  induction Hr as [chunk slot w size fs id Hfs | s s' _ IH Hstep].
  - unfold ssmem_alloc_init_fs_size.
    now destruct (ssmem_gc_thread_init slot w id).
  - destruct Hstep as
      [chunk w a size w' a' m H | w a obj w' a' H | w a obj w' a' H
      | w a w' a' n H | w a w' H | w a l n]; cbn [snd] in *.
    + destruct (alloc_released_frame _ _ _ _ _ _ _ _ H) as [-> ->]. exact IH.
    + exact (free_released_counted _ _ _ _ _ _ H IH).
    + exact (release_released_counted _ _ _ _ _ _ H IH).
    + exact (mem_reclaim_released_counted _ _ _ _ _ H IH).
    + exact IH.
    + exact IH.
Qed.

Lemma counters_agree_with_lists_witness :
  free_set_num (snd after_first_free) = 1 /\
  released_num (snd after_first_free) = 0.
Proof.
  apply (counters_agree_with_lists example_config after_first_free).
  apply (reach_step example_config (fresh 1)).
  - apply fresh_reachable. lia.
  - apply (step_free example_config (fst (fresh 1)) (snd (fresh 1)) 4096).
    vm_compute. reflexivity.
Defined.

(** X19: The capacity chosen at the initialisation is kept: in every reachable
    state each container of the free-set, collected-set and available-set
    lists has the capacity [fs_size] of the allocator, and its pointer
    array has the words that the block of
    [sizeof(ssmem_free_set_t) + fs_size * 8] bytes, counted in [size_t],
    leaves behind the header; these are [fs_size] words when that byte
    count does not wrap, and fewer when it does and [fs_size] is not 0.
    No step changes [fs_size]. *)
Theorem containers_have_capacity (cfg : config) (s : state) :
  reachable cfg s ->
  let all := free_set_list (snd s) ++ collected_set_list (snd s)
             ++ available_set_list (snd s) in
  Forall (fun fs => size fs = fs_size (snd s) /\
                    length (set fs)
                    = Z.to_nat ((free_set_bytes (fs_size (snd s))
                                 - sizeof_free_set) / 8)) all /\
  (block_fits (fs_size (snd s)) ->
   Forall (fun fs => length (set fs) = Z.to_nat (fs_size (snd s))) all) /\
  (~ block_fits (fs_size (snd s)) ->
   Forall (fun fs => (length (set fs) < Z.to_nat (fs_size (snd s)))%nat) all) /\
  forall s', step cfg s s' -> fs_size (snd s') = fs_size (snd s).
Proof.
  intros Hr all. pose proof (reachable_lists_ok _ _ Hr) as Hok.
  assert (Hall : Forall (made_for (fs_size (snd s))) all).
  { destruct Hok as (_ & Hfree & Hcoll & Havail & _).
    unfold all. rewrite !Forall_app. auto. }
  pose proof (proj1 Hok) as Hfs.
  split; [|split; [|split]].
  - eapply Forall_impl; [exact Hall|]. intros fs [Hs Hl].
    split; [exact Hs|]. rewrite Hl. unfold array_words.
    destruct (Z.ltb_spec (free_set_bytes (fs_size (snd s))) sizeof_free_set);
      [|reflexivity].
    assert ((free_set_bytes (fs_size (snd s)) - sizeof_free_set) / 8 < 0)
      by (apply Z.div_lt_upper_bound; lia).
    lia.
  - intros Hfit. eapply Forall_impl; [exact Hall|]. intros fs [_ Hl].
    rewrite Hl, array_words_exact by (assumption || lia). reflexivity.
  - intros Hwrap. eapply Forall_impl; [exact Hall|]. intros fs [_ Hl].
    rewrite Hl. apply Z2Nat.inj_lt; [apply array_words_le; lia | lia|].
    now apply array_words_wraps.
  - intros s' Hstep. exact (step_fs_size _ _ _ Hstep Hok).
Qed.

Lemma containers_have_capacity_witness :
  Forall (fun fs => length (set fs) = 1%nat)
    (free_set_list (snd after_first_free)
     ++ collected_set_list (snd after_first_free)
     ++ available_set_list (snd after_first_free)).
Proof.
  refine (proj1 (proj2 (containers_have_capacity example_config
                          after_first_free _)) _).
  - apply (reach_step example_config (fresh 1)).
    + apply fresh_reachable. lia.
    + apply (step_free example_config (fst (fresh 1)) (snd (fresh 1)) 4096).
      vm_compute. reflexivity.
  - vm_compute. reflexivity.
Defined.

(** ** Termination *)

Lemma log_free_app w l1 l2 : log_free (log_free w l1) l2 = log_free w (l1 ++ l2).
Proof. unfold log_free. cbn. now rewrite app_assoc. Qed.

Lemma log_free_nil w : log_free w [] = w.
Proof. destruct w. unfold log_free. cbn. now rewrite app_nil_r. Qed.

Lemma alloc_term_Ok self a tl w :
  mem_chunks a <> [] ->
  ssmem_alloc_term self a tl w =
    Ok ({| ssmem_num_allocators := wrap64 (ssmem_num_allocators tl - 1);
           ssmem_allocator_list := unlink_allocator self (ssmem_allocator_list tl) |},
        log_free w (freed_by_term (wrap64 (ssmem_num_allocators tl - 1) =? 0) a)).
Proof.
  intros Hne. unfold ssmem_alloc_term, freed_by_term.
  destruct (mem_chunks a) as [|c chunks] eqn:E; [congruence|].
  destruct (wrap64 (ssmem_num_allocators tl - 1) =? 0);
    now rewrite !log_free_app.
Qed.

Lemma term_loop_all l : forall fuel tl w,
  ssmem_allocator_list tl = l ->
  ssmem_num_allocators tl = Z.of_nat (length l) ->
  Z.of_nat (length l) < 2 ^ 64 ->
  (length l <= fuel)%nat ->
  Forall (fun pa => mem_chunks (snd pa) <> []) l ->
  ssmem_term_loop fuel tl w =
    Ok ({| ssmem_num_allocators := 0; ssmem_allocator_list := [] |},
        log_free w (freed_by_terms l)).
Proof.
  induction l as [|[self a] rest IH]; intros fuel tl w Hl Hn Hlt Hfuel Hall.
  - destruct tl as [n l0]. cbn in *. subst.
    destruct fuel; cbn; now rewrite log_free_nil.
  - destruct fuel as [|fuel]; [cbn in Hfuel; lia|].
    inversion Hall as [|? ? Hne Hrest]; subst. cbn [snd] in Hne.
    cbn [ssmem_term_loop]. rewrite Hl.
    rewrite (alloc_term_Ok self a tl w Hne). cbn [mbind res_bind rbind].
    rewrite Hl, Hn. cbn [unlink_allocator fst]. rewrite Z.eqb_refl.
    cbn [length] in *.
    replace (Z.of_nat (S (length rest)) - 1) with (Z.of_nat (length rest)) by lia.
    rewrite wrap64_small by lia.
    rewrite (IH fuel {| ssmem_num_allocators := Z.of_nat (length rest);
                        ssmem_allocator_list := rest |} _ eq_refl eq_refl);
      [|lia|lia|exact Hrest].
    rewrite log_free_app. do 2 f_equal.
    destruct rest as [|[self' a'] rest'].
    + cbn. now rewrite app_nil_r.
    + reflexivity.
Qed.

(** X20: [ssmem_term] terminates every allocator of the thread: when the
    counter counts the list and every allocator has a chunk, it returns
    with an empty allocator list and a counter at 0, having handed to the
    backend, allocator after allocator from the newest on, its chunks and
    the objects of its released records, and the timestamp node once,
    with the last allocator.  The registry is left as it is. *)
Theorem term_terminates_all (tl : thread_locals) (w : world) :
  ssmem_num_allocators tl = Z.of_nat (length (ssmem_allocator_list tl)) ->
  Z.of_nat (length (ssmem_allocator_list tl)) < 2 ^ 64 ->
  Forall (fun pa => mem_chunks (snd pa) <> []) (ssmem_allocator_list tl) ->
  exists w',
    ssmem_term tl w =
      Ok ({| ssmem_num_allocators := 0; ssmem_allocator_list := [] |}, w') /\
    backend_freed w' = backend_freed w ++ freed_by_terms (ssmem_allocator_list tl) /\
    ssmem_ts_list w' = ssmem_ts_list w /\
    ssmem_ts_list_len w' = ssmem_ts_list_len w /\
    ssmem_ts_local w' = ssmem_ts_local w.
Proof.
  intros Hn Hlt Hall. unfold ssmem_term.
  rewrite (term_loop_all (ssmem_allocator_list tl) _ tl w eq_refl Hn Hlt
             (Nat.le_refl _) Hall).
  eexists. split; [reflexivity|]. cbn. auto.
Qed.

Lemma term_terminates_all_witness :
  exists w',
    ssmem_term two_allocators (one_thread 5) =
      Ok ({| ssmem_num_allocators := 0; ssmem_allocator_list := [] |}, w') /\
    backend_freed w' = [4096; 9000; 8000; 4096; 64].
Proof.
  destruct (term_terminates_all two_allocators (one_thread 5))
    as (w' & Ht & Hf & _).
  - reflexivity.
  - cbn. lia.
  - repeat constructor; discriminate.
  - exists w'. split; [exact Ht | exact Hf].
Defined.

(** X21: After the last allocator of a thread is terminated, the timestamp
    node of the thread has been handed to the backend's [free], yet it is
    still linked in the registry and still is the thread's
    [ssmem_ts_local]: an allocator that the thread initialises afterwards
    registers no new node and takes the freed node as its [ts]. *)
Theorem term_leaves_freed_node_registered (self : Z) (a : ssmem_allocator)
    (tl : thread_locals) (w : world) :
  mem_chunks a <> [] ->
  ssmem_num_allocators tl = 1 ->
  ssmem_ts_local w = Some (ts a) ->
  exists tl1 w1,
    ssmem_alloc_term self a tl w = Ok (tl1, w1) /\
    ts a ∈ backend_freed w1 /\
    ssmem_ts_list w1 = ssmem_ts_list w /\
    ssmem_ts_list_len w1 = ssmem_ts_list_len w /\
    ssmem_ts_local w1 = Some (ts a) /\
    forall chunk slot size free_set_size id,
      fst (ssmem_alloc_init_fs_size chunk slot w1 size free_set_size id) = w1 /\
      ts (snd (ssmem_alloc_init_fs_size chunk slot w1 size free_set_size id)) = ts a.
Proof.
  intros Hne Hn Hlocal. rewrite (alloc_term_Ok self a tl w Hne).
  eexists _, _. split; [reflexivity|].
  rewrite Hn. change (wrap64 (1 - 1) =? 0) with true.
  unfold freed_by_term. cbn [backend_freed log_free ssmem_ts_list ssmem_ts_list_len
                               ssmem_ts_local].
  split; [rewrite !elem_of_app, elem_of_cons; auto|].
  split; [reflexivity|]. split; [reflexivity|]. split; [exact Hlocal|].
  intros chunk slot size fs id.
  unfold ssmem_alloc_init_fs_size, ssmem_gc_thread_init. cbn [ssmem_ts_local log_free].
  rewrite Hlocal. cbn. auto.
Qed.

Lemma term_leaves_freed_node_registered_witness :
  exists tl1 w1,
    ssmem_alloc_term 1000 (snd (fresh 2))
      {| ssmem_num_allocators := 1;
         ssmem_allocator_list := [(1000, snd (fresh 2))] |} (fst (fresh 2))
    = Ok (tl1, w1) /\
    64 ∈ backend_freed w1 /\
    ts (snd (ssmem_alloc_init_fs_size 8192 128 w1 4096 2 0)) = 64.
Proof.
  destruct (term_leaves_freed_node_registered 1000 (snd (fresh 2))
              {| ssmem_num_allocators := 1;
                 ssmem_allocator_list := [(1000, snd (fresh 2))] |} (fst (fresh 2)))
    as (tl1 & w1 & Ht & Hin & _ & _ & _ & Hinit).
  - discriminate.
  - reflexivity.
  - reflexivity.
  - exists tl1, w1. split; [exact Ht|]. split; [exact Hin|].
    exact (proj2 (Hinit 8192 128 4096 2 0)).
Defined.

(** X22: Terminating a live allocator that is not on the list of the calling
    thread (the list is thread-local: an allocator that another thread has
    initialised is not on it) unlinks nothing, but counts the allocators of
    the calling thread down all the same and hands to the backend the
    chunks of the allocator, its timestamp node if the count has come to 0,
    and its released objects. *)
Theorem term_of_unlisted_allocator (self : Z) (a : ssmem_allocator)
    (tl : thread_locals) (w : world) :
  mem_chunks a <> [] ->
  Forall (fun pa => fst pa <> self) (ssmem_allocator_list tl) ->
  exists w1,
    ssmem_alloc_term self a tl w =
      Ok ({| ssmem_num_allocators := wrap64 (ssmem_num_allocators tl - 1);
             ssmem_allocator_list := ssmem_allocator_list tl |}, w1) /\
    backend_freed w1
    = backend_freed w ++ mem_chunks a
      ++ (if wrap64 (ssmem_num_allocators tl - 1) =? 0 then [ts a] else [])
      ++ List.map rel_mem (released_mem_list a) /\
    ssmem_ts_list w1 = ssmem_ts_list w /\
    ssmem_ts_list_len w1 = ssmem_ts_list_len w.
Proof.
  intros Hne Hnot. rewrite (alloc_term_Ok self a tl w Hne).
  assert (Hun : unlink_allocator self (ssmem_allocator_list tl)
                = ssmem_allocator_list tl).
  { induction Hnot as [|pa l Hpa _ IH]; [reflexivity|]. cbn.
    destruct (Z.eqb_spec (fst pa) self); [contradiction|]. now rewrite IH. }
  rewrite Hun. eexists. split; [reflexivity|].
  unfold freed_by_term. cbn. auto.
Qed.

Lemma term_of_unlisted_allocator_witness :
  exists w1,
    ssmem_alloc_term 3000 two_released two_allocators (one_thread 5) =
      Ok ({| ssmem_num_allocators := 1;
             ssmem_allocator_list := ssmem_allocator_list two_allocators |}, w1) /\
    backend_freed w1 = [] ++ [4096] ++ [] ++ [9000; 8000] /\
    ssmem_ts_list w1 = ssmem_ts_list (one_thread 5) /\
    ssmem_ts_list_len w1 = 1.
Proof.
  apply (term_of_unlisted_allocator 3000 two_released two_allocators
           (one_thread 5)).
  - discriminate.
  - repeat constructor; discriminate.
Defined.

(** ** Zeroing a chunk *)




(** ** An arena of size 0 *)

(** X24: On an allocator whose chunk size is 0 (initialised with [size = 0]),
    without doubling or with it, a request of at least one byte makes
    the loop that grows the chunk size turn forever: the size stays 0 at
    each doubling and never exceeds the cap. *)
Theorem alloc_on_empty_arena_never_returns (cfg : config) (chunk : Z) (w : world)
    (a : ssmem_allocator) (size : Z) :
  collected_set_list a = [] ->
  mem_size a = 0 -> 0 <= mem_curr a -> 0 < size -> mem_curr a + size < 2 ^ 64 ->
  0 <= SSMEM_MEM_SIZE_MAX cfg ->
  ssmem_alloc cfg chunk w a size = Timeout /\
  forall fuel, grow_loop cfg fuel 0 size = Timeout.
Proof.
  intros Hc Hm Hcur Hsize Hno Hmax.
  assert (Hloop : forall fuel, grow_loop cfg fuel 0 size = Timeout).
  { intros fuel.
    assert (Hall : forall i, wrap64 (0 * 2 ^ Z.of_nat i) < size /\
                             wrap64 (0 * 2 ^ Z.of_nat i) <= SSMEM_MEM_SIZE_MAX cfg).
    { intros i. rewrite Z.mul_0_l. change (wrap64 0) with 0. lia. }
    pose proof (grow_loop_never_ends cfg size 0 Hall fuel 0%nat) as H.
    now rewrite Z.mul_0_l in H. }
  split; [|exact Hloop].
  rewrite (alloc_from_arena cfg chunk w a size Hc).
  rewrite wrap64_small by lia. rewrite Hm.
  destruct (Z.geb_spec (mem_curr a + size) 0); [|lia].
  unfold new_chunk. rewrite Hm. change (wrap64 (Z.shiftl 0 1)) with 0.
  assert (Hm1 : (if SSMEM_MEM_SIZE_DOUBLE cfg
                 then if 0 >? SSMEM_MEM_SIZE_MAX cfg then SSMEM_MEM_SIZE_MAX cfg else 0
                 else 0) = 0).
  { destruct (SSMEM_MEM_SIZE_DOUBLE cfg); [|reflexivity].
    destruct (Z.gtb_spec 0 (SSMEM_MEM_SIZE_MAX cfg)); [lia | reflexivity]. }
  rewrite Hm1. destruct (Z.gtb_spec size 0); [|lia].
  now rewrite Hloop.
Qed.

Lemma alloc_on_empty_arena_never_returns_witness :
  ssmem_alloc example_config 8192 (fst empty_arena) (snd empty_arena) 16 = Timeout.
Proof.
  refine (proj1 (alloc_on_empty_arena_never_returns example_config 8192
                   (fst empty_arena) (snd empty_arena) 16 eq_refl eq_refl _ _ _ _));
    cbn; lia.
Defined.

(** ** The id of a thread *)

Lemma to_int_wrap64 z : - 2 ^ 31 <= z < 2 ^ 31 -> to_int (wrap64 z) = z.
Proof.
  intros H. unfold to_int, wrap64.
  change (2 ^ 64) with 18446744073709551616. change (2 ^ 32) with 4294967296.
  change (2 ^ 31) with 2147483648 in *.
  Z.div_mod_to_equations. lia.
Qed.

(** X25: Before a thread has registered, [ssmem_get_id] answers -1.  Once the
    thread has initialised an allocator with the id [id] (an [int]), it
    answers [id], and goes on answering [id] after the thread has
    initialised further allocators with other ids. *)
Theorem get_id_is_first_id (chunk slot chunk' slot' : Z) (w : world)
    (size free_set_size id size' free_set_size' id' : Z) :
  ssmem_ts_local w = None ->
  - 2 ^ 31 <= id < 2 ^ 31 ->
  ssmem_get_id w = Ok (-1) /\
  ssmem_get_id (fst (ssmem_alloc_init_fs_size chunk slot w size free_set_size id))
  = Ok id /\
  ssmem_get_id
    (fst (ssmem_alloc_init_fs_size chunk' slot'
            (fst (ssmem_alloc_init_fs_size chunk slot w size free_set_size id))
            size' free_set_size' id'))
  = Ok id.
Proof.
  intros Hlocal Hid.
  assert (H1 : ssmem_get_id
                 (fst (ssmem_alloc_init_fs_size chunk slot w size free_set_size id))
               = Ok id).
  { unfold ssmem_alloc_init_fs_size, ssmem_gc_thread_init, ssmem_get_id.
    rewrite Hlocal. cbn. rewrite Z.eqb_refl. cbn. now rewrite to_int_wrap64. }
  split; [unfold ssmem_get_id; now rewrite Hlocal|]. split; [exact H1|].
  unfold ssmem_alloc_init_fs_size at 1.
  pose proof (gc_thread_init_registered slot w id (or_introl Hlocal)) as Hreg.
  unfold ssmem_alloc_init_fs_size in *.
  destruct (ssmem_gc_thread_init slot w id) as [w0 p] eqn:E0. cbn [fst] in *.
  unfold ssmem_gc_thread_init. unfold registered in Hreg.
  destruct (ssmem_ts_local w0); [exact H1 | contradiction].
Qed.

Lemma get_id_is_first_id_witness :
  ssmem_get_id empty_world = Ok (-1) /\
  ssmem_get_id (fst (ssmem_alloc_init_fs_size 4096 64 empty_world 4096 2 7)) = Ok 7 /\
  ssmem_get_id
    (fst (ssmem_alloc_init_fs_size 8192 128
            (fst (ssmem_alloc_init_fs_size 4096 64 empty_world 4096 2 7))
            4096 2 9)) = Ok 7.
Proof.
  apply (get_id_is_first_id 4096 64 8192 128 empty_world 4096 2 7 4096 2 9).
  - reflexivity.
  - lia.
Defined.

(** ** Initialisation and termination *)

(** X26: Terminating the allocator that a thread initialised last undoes
    what the initialisation did to the thread-local variables: the
    allocator list and the counter of allocators are what they were before
    the initialisation, and the chunks of the allocator have been handed
    to the backend. *)
Theorem init_then_term_restores_locals (self : Z) (a : ssmem_allocator)
    (tl : thread_locals) (w : world) :
  mem_chunks a <> [] ->
  0 <= ssmem_num_allocators tl < 2 ^ 64 - 1 ->
  exists w',
    ssmem_alloc_term self a (init_thread_locals self a tl) w = Ok (tl, w') /\
    exists l, backend_freed w' = backend_freed w ++ mem_chunks a ++ l.
Proof.
  intros Hne Hn. rewrite (alloc_term_Ok self a _ w Hne).
  unfold init_thread_locals. cbn [ssmem_num_allocators ssmem_allocator_list
                                   unlink_allocator fst].
  rewrite Z.eqb_refl. rewrite (wrap64_small (ssmem_num_allocators tl + 1)) by lia.
  replace (ssmem_num_allocators tl + 1 - 1) with (ssmem_num_allocators tl) by lia.
  rewrite wrap64_small by lia.
  eexists. split; [destruct tl; reflexivity|].
  unfold freed_by_term. cbn. eauto.
Qed.

Lemma init_then_term_restores_locals_witness :
  exists w',
    ssmem_alloc_term 3000 nearly_full
      (init_thread_locals 3000 nearly_full two_allocators) (one_thread 5)
    = Ok (two_allocators, w') /\
    exists l, backend_freed w' = [] ++ [4096] ++ l.
Proof.
  apply (init_then_term_restores_locals 3000 nearly_full two_allocators (one_thread 5)).
  - discriminate.
  - cbn. lia.
Defined.
